(** * LLMstudio engine: provider base class and model listing

    A shallow embedding of [llmstudio/engine/providers/provider.py] and of the
    model-listing endpoint of [llmstudio/engine/__init__.py].

    Python values are modelled as the code has them: [float] is the IEEE 754
    binary64 type of the kernel ([PrimFloat]), [int] is [Z], [str] is
    [string], a [dict] is an insertion-ordered association list, and a raised
    exception is the [Raise] branch of [result]. *)

From Stdlib Require Import ZArith List String Ascii Bool Lia.
From Stdlib Require Import Floats Uint63 DecimalString.
From Stdlib Require DecimalPos DecimalZ.
Import ListNotations.

Local Open Scope Z_scope.
Local Open Scope string_scope.

(** ** Python runtime: exceptions and results *)

Inductive exn : Type :=
| HTTPException (status_code : Z) (detail : string)
| KeyError (key : string)
| TypeError
| AttributeError
| ZeroDivisionError
| OverflowError
| ValueError.

Inductive result (A : Type) : Type :=
| Ok (a : A)
| Raise (e : exn).

Arguments Ok {A} a.
Arguments Raise {A} e.

Definition bind {A B : Type} (c : result A) (k : A -> result B) : result B :=
  match c with
  | Ok a => k a
  | Raise e => Raise e
  end.

Notation "x <- c ;; k" := (bind c (fun x => k))
  (at level 61, c at next level, right associativity).

Definition returns {A : Type} (c : result A) : bool :=
  match c with Ok _ => true | Raise _ => false end.

(** ** Python [dict]: insertion-ordered, one binding per key *)

Module Dict.

Definition t (V : Type) : Type := list (string * V).

Definition empty {V : Type} : t V := [].

(** [d.get(k)] *)
Fixpoint get {V : Type} (k : string) (d : t V) : option V :=
  match d with
  | [] => None
  | (k', v) :: rest => if String.eqb k' k then Some v else get k rest
  end.

(** [d.get(k, default)] *)
Definition get_default {V : Type} (k : string) (default : V) (d : t V) : V :=
  match get k d with
  | Some v => v
  | None => default
  end.

(** [k in d] *)
Definition contains {V : Type} (k : string) (d : t V) : bool :=
  match get k d with
  | Some _ => true
  | None => false
  end.

(** [d[k]] *)
Definition subscript {V : Type} (d : t V) (k : string) : result V :=
  match get k d with
  | Some v => Ok v
  | None => Raise (KeyError k)
  end.

(** [d[k] = v]: an existing key keeps its position, a new one goes last. *)
Fixpoint set {V : Type} (k : string) (v : V) (d : t V) : t V :=
  match d with
  | [] => [(k, v)]
  | (k', v') :: rest =>
      if String.eqb k' k then (k, v) :: rest else (k', v') :: set k v rest
  end.

(** [list(d.keys())] and [d.items()] *)
Definition keys {V : Type} (d : t V) : list string := map fst d.
Definition items {V : Type} (d : t V) : list (string * V) := d.

(** A Python dict holds each key once. *)
Definition wf {V : Type} (d : t V) : Prop := NoDup (keys d).

(** Truth value of a dict: empty is false. *)
Definition truthy {V : Type} (d : t V) : bool :=
  match d with [] => false | _ :: _ => true end.

End Dict.

(** ** Python numbers *)

Local Open Scope float_scope.

(** [len(xs)]: the length of a sequence, as an [int]. *)
Definition len {A : Type} (xs : list A) : Z := Z.of_nat (List.length xs).

(** A list, tuple or encoding holds at most [sys.maxsize] items. *)
Definition maxsize : Z := 2 ^ 63 - 1.

Definition sequence {A : Type} (xs : list A) : Prop := len xs <= maxsize.

(** Conversion of an [int] to a [float], as the arithmetic operators do it
    for a mixed operand pair: the nearest binary64 value, ties to even, and
    [OverflowError] (int too large to convert to float) when that value is
    out of range. Below 2^63 this is the machine conversion. *)
Definition float_of_int (z : Z) : result float :=
  if (Z.abs z <? 2 ^ 63)%Z then
    Ok (if (z <? 0)%Z then - of_uint63 (of_Z (- z)) else of_uint63 (of_Z z))
  else
    match binary_normalize prec emax z 0 false with
    | S754_infinity _ => Raise OverflowError
    | sf => Ok (SF2Prim sf)
    end.

(** [a / b] on floats: [ZeroDivisionError] when the divisor compares equal
    to zero (either sign). *)
Definition float_truediv (a b : float) : result float :=
  if b =? 0 then Raise ZeroDivisionError else Ok (a / b).

(** [a / n] with a float dividend and an int divisor. *)
Definition float_truediv_int (a : float) (n : Z) : result float :=
  b <- float_of_int n ;; float_truediv a b.

(** [n / b] with an int dividend and a float divisor: the dividend is
    converted before the divisor is inspected. *)
Definition int_truediv_float (n : Z) (b : float) : result float :=
  a <- float_of_int n ;; float_truediv a b.

(** [c * n] with a float and an int. *)
Definition float_mul_int (c : float) (n : Z) : result float :=
  b <- float_of_int n ;; Ok (c * b).

(** [sum(xs)] over floats: the running total starts from the int 0 and the
    items are added from left to right (CPython before 3.12, which has no
    compensated summation). *)
Definition float_sum (xs : list float) : float := fold_left PrimFloat.add xs 0.

(** [sum(xs) / len(xs)]: on the empty tuple both operands are the int 0 and
    the int division raises; otherwise the sum is a float and the length is
    converted. *)
Definition mean (xs : list float) : result float :=
  match xs with
  | [] => Raise ZeroDivisionError
  | _ :: _ => float_truediv_int (float_sum xs) (len xs)
  end.


(** ** Python text formatting of numbers *)

Local Open Scope Z_scope.

(** The decimal digits of an integer, a leading minus sign when negative. *)
Definition decimal_int (n : Z) : string := NilZero.string_of_int (Z.to_int n).

(** [sys.get_int_max_str_digits()]: the default of CPython 3.11. *)
Definition int_max_str_digits : Z := 4300.

(** [str(n)] for an int, which is also what a replacement field [{n}] of
    an f-string evaluates: the decimal digits, and [ValueError] (exceeds
    the limit for integer string conversion) when there are more than
    [int_max_str_digits] of them, the sign not counted, that is when the
    magnitude is at least [10 ^ int_max_str_digits]. *)
Definition str_int (n : Z) : result string :=
  if 10 ^ int_max_str_digits <=? Z.abs n then Raise ValueError
  else Ok (decimal_int n).

Definition sign_string (s : bool) : string := if s then "-" else "".

Definition digit_char (d : Z) : ascii := ascii_of_nat (48 + Z.to_nat (d mod 10)).

(** The integer nearest to [num / den], ties to the even one
    ([0 <= num], [0 < den]). *)
Definition round_half_even (num den : Z) : Z :=
  let q := num / den in
  match 2 * (num mod den) ?= den with
  | Lt => q
  | Gt => q + 1
  | Eq => if Z.even q then q else q + 1
  end.

(** The [k] decimal digits of [r], most significant first ([0 <= r < 10^k]). *)
Fixpoint frac_digits (k : nat) (r : Z) : string :=
  match k with
  | O => EmptyString
  | S k' => String (digit_char (r / 10 ^ Z.of_nat k'))
                   (frac_digits k' (r mod 10 ^ Z.of_nat k'))
  end.

(** [n / 10^k] written with exactly [k] digits after the point. *)
Definition fixed_point (k : nat) (n : Z) : string :=
  decimal_int (n / 10 ^ Z.of_nat k) ++
  match k with
  | O => EmptyString
  | S _ => "." ++ frac_digits k (n mod 10 ^ Z.of_nat k)
  end.

(** [m * 2^e * 10^k] rounded to an integer, ties to even. *)
Definition scaled_round (m : positive) (e : Z) (k : nat) : Z :=
  if 0 <=? e then Zpos m * 2 ^ e * 10 ^ Z.of_nat k
  else round_half_even (Zpos m * 10 ^ Z.of_nat k) (2 ^ (- e)).

(** [format(x, '.kf')]: the exact binary value rounded to [k] decimals, ties
    to even; the sign is kept on a result that rounds to zero; the
    non-finite values have no digits. *)
Definition format_f (k : nat) (x : float) : string :=
  match Prim2SF x with
  | S754_nan => "nan"
  | S754_infinity s => sign_string s ++ "inf"
  | S754_zero s => sign_string s ++ fixed_point k 0
  | S754_finite s m e => sign_string s ++ fixed_point k (scaled_round m e k)
  end.

(** *** [str(x)] for a float: the shortest digits that read back as [x] *)

(** [floor (log10 (nv / d))] for a positive rational. *)
Fixpoint log10_up (fuel : nat) (nv d k : Z) : Z :=
  match fuel with
  | O => k
  | S fuel' => if 10 * d <=? nv then log10_up fuel' nv (10 * d) (k + 1) else k
  end.

Fixpoint log10_down (fuel : nat) (nv d k : Z) : Z :=
  match fuel with
  | O => k
  | S fuel' => if nv <? d then log10_down fuel' (10 * nv) d (k - 1) else k
  end.

Definition floor_log10 (nv d : Z) : Z :=
  if d <=? nv then log10_up 400 nv d 0 else log10_down 400 nv d 0.

(** A positive value [nv / d] with the interval [nl / d .. nh / d] of the
    reals that read back as it; the ends belong to it when [incl]. *)
Record rounding_interval : Type := {
  ri_nv : Z; ri_nl : Z; ri_nh : Z; ri_d : Z; ri_incl : bool
}.

Definition interval_of (m : positive) (e : Z) : rounding_interval :=
  let boundary := (Zpos m =? 2 ^ 52) && (-1074 <? e) in
  let up := 2 ^ Z.max 0 (e - 2) in
  {| ri_nv := 4 * Zpos m * up;
     ri_nl := (4 * Zpos m - (if boundary then 1 else 2)) * up;
     ri_nh := (4 * Zpos m + 2) * up;
     ri_d := 2 ^ Z.max 0 (2 - e);
     ri_incl := Z.even (Zpos m) |}.

(** Is [c * 10^p] inside the interval? *)
Definition inside (i : rounding_interval) (c p : Z) : bool :=
  let cn := c * 10 ^ Z.max 0 p * ri_d i in
  let cd := 10 ^ Z.max 0 (- p) in
  if ri_incl i
  then (ri_nl i * cd <=? cn) && (cn <=? ri_nh i * cd)
  else (ri_nl i * cd <? cn) && (cn <? ri_nh i * cd).

(** The [n]-digit candidate for [i] whose last digit has weight [10^p], when
    one lies inside the interval: the nearer of the two that enclose the
    value. *)
Definition candidate (i : rounding_interval) (p : Z) : option Z :=
  let a := ri_nv i * 10 ^ Z.max 0 (- p) in
  let b := ri_d i * 10 ^ Z.max 0 p in
  let lo := a / b in
  let hi := lo + 1 in
  match inside i lo p, inside i hi p with
  | false, false => None
  | true, false => Some lo
  | false, true => Some hi
  | true, true =>
      Some match 2 * (a mod b) ?= b with
           | Lt => lo
           | Gt => hi
           | Eq => if Z.even lo then lo else hi
           end
  end.

Fixpoint shortest_from (fuel : nat) (i : rounding_interval) (k n : Z) : Z * Z :=
  let p := k - n + 1 in
  match fuel with
  | O => (ri_nv i * 10 ^ Z.max 0 (- p) / (ri_d i * 10 ^ Z.max 0 p), p)
  | S fuel' =>
      match candidate i p with
      | Some c => (c, p)
      | None => shortest_from fuel' i k (n + 1)
      end
  end.

(** The shortest decimal [c * 10^p] that reads back as [m * 2^e]. *)
Definition shortest (m : positive) (e : Z) : Z * Z :=
  let i := interval_of m e in
  shortest_from 17 i (floor_log10 (ri_nv i) (ri_d i)) 1.

Fixpoint strip_zeros (fuel : nat) (c p : Z) : Z * Z :=
  match fuel with
  | O => (c, p)
  | S fuel' => if (c mod 10 =? 0) && (0 <? c) then strip_zeros fuel' (c / 10) (p + 1) else (c, p)
  end.

Fixpoint zeros (n : nat) : string :=
  match n with
  | O => EmptyString
  | S n' => String "0" (zeros n')
  end.

(** Layout of the digits [ds] read as [0.ds * 10^decpt]: positional when
    [-4 < decpt <= 16], with an exponent of at least two digits otherwise. *)
Definition repr_layout (ds : string) (decpt : Z) : string :=
  let n := Z.of_nat (String.length ds) in
  if (-4 <? decpt) && (decpt <=? 16) then
    if decpt <=? 0 then "0." ++ zeros (Z.to_nat (- decpt)) ++ ds
    else if decpt <? n then
      substring 0 (Z.to_nat decpt) ds ++ "." ++
      substring (Z.to_nat decpt) (Z.to_nat (n - decpt)) ds
    else ds ++ zeros (Z.to_nat (decpt - n)) ++ ".0"
  else
    let x := decpt - 1 in
    substring 0 1 ds ++
    (if 1 <? n then "." ++ substring 1 (Z.to_nat (n - 1)) ds else EmptyString) ++
    "e" ++ (if x <? 0 then "-" else "+") ++
    (if Z.abs x <? 10 then "0" else EmptyString) ++ decimal_int (Z.abs x).

Definition str_float (x : float) : string :=
  match Prim2SF x with
  | S754_nan => "nan"
  | S754_infinity s => sign_string s ++ "inf"
  | S754_zero s => sign_string s ++ "0.0"
  | S754_finite s m e =>
      let '(c0, p0) := shortest m e in
      let '(c, p) := strip_zeros 400 c0 p0 in
      let ds := decimal_int c in
      sign_string s ++ repr_layout ds (p + Z.of_nat (String.length ds))
  end.

(** ** Engine configuration ([llmstudio/engine/__init__.py]) *)

(** A value of a parameter bag ([Dict[str, Any]], or the fields of a
    pydantic model). *)
Inductive field_value : Type :=
| VNone
| VBool (b : bool)
| VInt (n : Z)
| VFloat (x : float)
| VStr (s : string).

Record ModelConfig : Type := {
  mode : string;
  max_tokens : Z;
  input_token_cost : float;
  output_token_cost : float
}.

Module Engine.

Record ProviderConfig : Type := {
  id : string;
  name : string;
  chat : bool;
  embed : bool;
  keys : option (list string);
  models : option (Dict.t ModelConfig);
  parameters : option (Dict.t field_value)
}.

Record EngineConfig : Type := {
  providers : Dict.t ProviderConfig
}.

(** One value of the listing: [{"name": ..., "models": [...]}]. *)
Record ModelsEntry : Type := {
  entry_name : string;
  entry_models : list string
}.

(** What [get_models] hands back: the whole mapping, or the value stored
    under the filter. *)
Inductive ModelsListing : Type :=
| AllModels (all_models : Dict.t ModelsEntry)
| ProviderModels (entry : ModelsEntry).

(** Truth value of [Optional[str]] and of [Optional[Dict]]. *)
Definition truthy_str (s : option string) : bool :=
  match s with
  | Some s' => negb (String.eqb s' "")
  | None => false
  end.

Definition truthy_models (m : option (Dict.t ModelConfig)) : bool :=
  match m with
  | Some d => Dict.truthy d
  | None => false
  end.

Definition model_names (m : option (Dict.t ModelConfig)) : list string :=
  match m with
  | Some d => Dict.keys d
  | None => []
  end.

Definition get_providers (config : EngineConfig) : list string :=
  Dict.keys (providers config).

(** [provider and provider_name != provider] *)
Definition filtered_out (provider : option string) (provider_name : string) : bool :=
  match provider with
  | Some p => truthy_str provider && negb (String.eqb provider_name p)
  | None => false
  end.

(** One turn of the loop of [get_models]. *)
Definition get_models_step (provider : option string)
    (all_models : Dict.t ModelsEntry) (item : string * ProviderConfig)
    : Dict.t ModelsEntry :=
  let '(provider_name, provider_config) := item in
  if filtered_out provider provider_name then all_models
  else if truthy_models (models provider_config)
  then Dict.set provider_name
         {| entry_name := name provider_config;
            entry_models := model_names (models provider_config) |}
         all_models
  else all_models.

Definition get_models (config : EngineConfig) (provider : option string)
    : result ModelsListing :=
  let all_models :=
    fold_left (get_models_step provider) (Dict.items (providers config)) Dict.empty in
  match provider with
  | Some p =>
      if truthy_str provider
      then e <- Dict.subscript all_models p ;; Ok (ProviderModels e)
      else Ok (AllModels all_models)
  | None => Ok (AllModels all_models)
  end.

End Engine.

(** ** The provider base class ([llmstudio/engine/providers/provider.py]) *)

Module Provider.

(** The three tokenizers the base class knows: the vendor ones of Anthropic
    and Cohere, and tiktoken's [cl100k_base]. *)
Inductive Tokenizer : Type :=
| AnthropicTokenizer
| CohereCommandNightly
| Cl100kBase.

(** A pydantic model instance, by its fields; [model_dump] gives them back
    as a dict. *)
Record BaseModel : Type := {
  model_fields : Dict.t field_value
}.

Definition model_dump (m : BaseModel) : Dict.t field_value := model_fields m.

Record ChatRequest : Type := {
  api_key : option string;
  model : string;
  chat_input : string;
  parameters : option BaseModel;
  is_stream : option bool;
  has_end_token : option bool
}.

(** The attributes the class reads from its configuration object, which
    [__init__] takes untyped: [provider], [name] and [models] (the engine's
    [ProviderConfig] calls its identifier [id]). [keys] is carried along for
    the statements about credentials; no method reads it. *)
Record Config : Type := {
  provider : string;
  name : string;
  keys : option (list string);
  models : option (Dict.t ModelConfig)
}.

Record t : Type := {
  config : Config;
  tokenizer : Tokenizer
}.

Definition END_TOKEN : string := "<END_TOKEN>".

Definition _get_tokenizer (config : Config) : Tokenizer :=
  Dict.get_default (provider config) Cl100kBase
    [("anthropic", AnthropicTokenizer); ("cohere", CohereCommandNightly)].

(** [Provider(config)] *)
Definition init (config : Config) : t :=
  {| config := config; tokenizer := _get_tokenizer config |}.

Record UsageRecord : Type := {
  input_tokens : Z;
  output_tokens : Z;
  total_tokens : Z;
  cost : float
}.

Record MetricsRecord : Type := {
  latency : float;
  time_to_first_token : float;
  inter_token_latency : float;
  tokens_per_second : float
}.

Record ChatResponse : Type := {
  response_id : string;
  response_chat_input : string;
  response_chat_output : string;
  response_timestamp : float;
  response_model : string;
  response_usage : UsageRecord;
  response_metrics : MetricsRecord;
  response_parameters : Dict.t field_value
}.

(** *** Pure methods *)

Definition calculate_metrics (start_time end_time first_token_time : float)
    (token_times : list float) (token_count : Z) : result MetricsRecord :=
  let total_time := (end_time - start_time)%float in
  let ttft := (first_token_time - start_time)%float in
  itl <- mean token_times ;;
  tps <- int_truediv_float token_count total_time ;;
  Ok {| latency := total_time;
        time_to_first_token := ttft;
        inter_token_latency := itl;
        tokens_per_second := tps |}.

(** [self.config.models[model]]: a missing table is not subscriptable. *)
Definition lookup_model (config : Config) (model : string) : result ModelConfig :=
  match models config with
  | Some d => Dict.subscript d model
  | None => Raise TypeError
  end.

Section WithTokenizers.

(** [tokenizer.encode(text)]: the token ids of a text, or the exception
    of the tokenizer library when it refuses the text (tiktoken raises
    [ValueError] on a text that holds one of the special tokens of the
    encoding). *)
Variable encode : Tokenizer -> string -> result (list Z).

Definition calculate_usage (self : t) (input output model : string)
    : result UsageRecord :=
  model_config <- lookup_model (config self) model ;;
  input_encoding <- encode (tokenizer self) input ;;
  let input_tokens := len input_encoding in
  output_encoding <- encode (tokenizer self) output ;;
  let output_tokens := len output_encoding in
  input_cost <- float_mul_int (input_token_cost model_config) input_tokens ;;
  output_cost <- float_mul_int (output_token_cost model_config) output_tokens ;;
  Ok {| input_tokens := input_tokens;
        output_tokens := output_tokens;
        total_tokens := input_tokens + output_tokens;
        cost := (input_cost + output_cost)%float |}.

End WithTokenizers.

(** The replacement fields of the f-string are formatted from left to
    right; the two int fields can fail, the float fields cannot. *)
Definition get_end_token_string (usage : UsageRecord) (metrics : MetricsRecord)
    : result string :=
  input_text <- str_int (input_tokens usage) ;;
  output_text <- str_int (output_tokens usage) ;;
  Ok (END_TOKEN ++
      ",input_tokens=" ++ input_text ++
      ",output_tokens=" ++ output_text ++
      ",cost=" ++ str_float (cost usage) ++
      ",latency=" ++ format_f 5 (latency metrics) ++
      ",time_to_first_token=" ++ format_f 5 (time_to_first_token metrics) ++
      ",inter_token_latency=" ++ format_f 5 (inter_token_latency metrics) ++
      ",tokens_per_second=" ++ format_f 2 (tokens_per_second metrics)).

(** *** Methods with effects

    The world outside a provider: the log of calls sent upstream, the
    identifiers [uuid.uuid4()] will draw, and the readings [time.time()]
    will give. *)

Record World : Type := {
  upstream_calls : list string;
  uuid_source : nat -> string;
  uuids_drawn : nat;
  clock : nat -> float;
  clock_reads : nat
}.

Definition M (A : Type) : Type := World -> result A * World.

Definition ret {A : Type} (a : A) : M A := fun w => (Ok a, w).

Definition raise {A : Type} (e : exn) : M A := fun w => (Raise e, w).

Definition mbind {A B : Type} (c : M A) (k : A -> M B) : M B :=
  fun w =>
    match c w with
    | (Ok a, w') => k a w'
    | (Raise e, w') => (Raise e, w')
    end.

Definition uuid4 : M string :=
  fun w =>
    (Ok (uuid_source w (uuids_drawn w)),
     {| upstream_calls := upstream_calls w;
        uuid_source := uuid_source w;
        uuids_drawn := S (uuids_drawn w);
        clock := clock w;
        clock_reads := clock_reads w |}).

Definition time : M float :=
  fun w =>
    (Ok (clock w (clock_reads w)),
     {| upstream_calls := upstream_calls w;
        uuid_source := uuid_source w;
        uuids_drawn := uuids_drawn w;
        clock := clock w;
        clock_reads := S (clock_reads w) |}).

(** [request.parameters.model_dump()]: [None] has no such attribute. *)
Definition dump_parameters (request : ChatRequest) : M (Dict.t field_value) :=
  match parameters request with
  | Some p => ret (model_dump p)
  | None => raise AttributeError
  end.

(** [await self.chat(chat_request)]: the base method only checks the
    model; it returns [None]. *)
Definition chat (self : t) (chat_request : ChatRequest) : M unit :=
  match models (config self) with
  | None => raise TypeError
  | Some d =>
      if negb (Dict.contains (model chat_request) d)
      then raise (HTTPException 400
             ("Model " ++ model chat_request ++
              " is not supported by " ++ name (config self)))
      else ret tt
  end.

(** The entries of the response dict are evaluated in the order written. *)
Definition generate_response (self : t) (request : ChatRequest)
    (chat_output : string) (usage : UsageRecord) (metrics : MetricsRecord)
    : M ChatResponse :=
  mbind uuid4 (fun ident =>
  mbind time (fun timestamp =>
  mbind (dump_parameters request) (fun dumped =>
  ret {| response_id := ident;
         response_chat_input := chat_input request;
         response_chat_output := chat_output;
         response_timestamp := timestamp;
         response_model := model request;
         response_usage := usage;
         response_metrics := metrics;
         response_parameters := dumped |}))).

End Provider.

(** ** The error taxonomy of the specification

    The specification names its failures; the code raises FastAPI's
    [HTTPException] and the built-in exceptions. [taxonomy] says which of
    the specification's kinds, when any, an exception of the code stands
    for. *)

Inductive spec_error : Type :=
| UnknownProviderError
| UnsupportedModelError
| MissingCredentialsError
| UpstreamError
| InsufficientDataError
| DivisionByZeroError.

Definition taxonomy (e : exn) : option spec_error :=
  match e with
  | HTTPException 400 _ => Some UnsupportedModelError
  | ZeroDivisionError => Some DivisionByZeroError
  | _ => None
  end.

(** ** The shape of the in-band terminator frame

    A recogniser written from the format the specification gives,
    [<SENTINEL>,input_tokens=<int>,...,tokens_per_second=<float:2>],
    independently of the code that prints the frame. *)

Definition is_digit (c : ascii) : bool :=
  let n := nat_of_ascii c in (48 <=? n)%nat && (n <=? 57)%nat.

Fixpoint all_digits (s : string) : bool :=
  match s with
  | EmptyString => true
  | String c rest => is_digit c && all_digits rest
  end.

(** One digit or more. *)
Definition digits1 (s : string) : bool :=
  match s with
  | EmptyString => false
  | String _ _ => all_digits s
  end.

(** [body], with or without a minus sign in front. *)
Definition signed (body : string -> bool) (s : string) : bool :=
  body s ||
  match s with
  | String "-" rest => body rest
  | _ => false
  end.

(** The text before the first [c], and the text after it when [c] occurs. *)
Fixpoint split_at (c : ascii) (s : string) : string * option string :=
  match s with
  | EmptyString => (EmptyString, None)
  | String a rest =>
      if Ascii.eqb a c then (EmptyString, Some rest)
      else let '(h, t) := split_at c rest in (String a h, t)
  end.

Definition is_int_literal : string -> bool := signed digits1.

(** Digits, a point, and exactly [k] digits. *)
Definition is_fixed_literal (k : nat) : string -> bool :=
  signed (fun s =>
    match split_at "." s with
    | (ip, Some fp) => digits1 ip && all_digits fp && (String.length fp =? k)%nat
    | (_, None) => false
    end).

(** A float as [str] prints it: digits with an optional fraction and an
    optional signed exponent, or one of the non-finite names. *)
Definition is_decimal (s : string) : bool :=
  match split_at "." s with
  | (ip, Some fp) => digits1 ip && digits1 fp
  | (ip, None) => digits1 ip
  end.

Definition is_exponent (s : string) : bool :=
  match s with
  | String "+" rest => digits1 rest
  | String "-" rest => digits1 rest
  | _ => false
  end.

Definition float_body (s : string) : bool :=
  String.eqb s "inf" || String.eqb s "nan" ||
  match split_at "e" s with
  | (mant, Some ex) => is_decimal mant && is_exponent ex
  | (mant, None) => is_decimal mant
  end.

Definition is_float_literal : string -> bool := signed float_body.

Fixpoint split_commas (s : string) : list string :=
  match s with
  | EmptyString => [EmptyString]
  | String a rest =>
      if Ascii.eqb a "," then EmptyString :: split_commas rest
      else match split_commas rest with
           | f :: fs => String a f :: fs
           | [] => [String a EmptyString]
           end
  end.

(** A field [key=value] whose value passes [ok]. *)
Definition is_field (key : string) (ok : string -> bool) (f : string) : bool :=
  match split_at "=" f with
  | (k, Some v) => String.eqb k key && ok v
  | (_, None) => false
  end.

Definition is_end_token_frame (sentinel : string) (s : string) : bool :=
  match split_commas s with
  | [t; f1; f2; f3; f4; f5; f6; f7] =>
      String.eqb t sentinel &&
      is_field "input_tokens" is_int_literal f1 &&
      is_field "output_tokens" is_int_literal f2 &&
      is_field "cost" is_float_literal f3 &&
      is_field "latency" (is_fixed_literal 5) f4 &&
      is_field "time_to_first_token" (is_fixed_literal 5) f5 &&
      is_field "inter_token_latency" (is_fixed_literal 5) f6 &&
      is_field "tokens_per_second" (is_fixed_literal 2) f7
  | _ => false
  end.

(** ** The listing the specification describes

    Each provider that has models, with its display name and the names of
    its models, in the order of the configuration. *)

Definition listing_entry (pc : Engine.ProviderConfig) : Engine.ModelsEntry :=
  {| Engine.entry_name := Engine.name pc;
     Engine.entry_models := Engine.model_names (Engine.models pc) |}.

Definition models_listing (ps : Dict.t Engine.ProviderConfig) : Dict.t Engine.ModelsEntry :=
  flat_map (fun item : string * Engine.ProviderConfig =>
              if Engine.truthy_models (Engine.models (snd item))
              then [(fst item, listing_entry (snd item))]
              else [])
           ps.

(** A float that is no zero: the inputs on which subtraction and conversion
    are shown not to produce a zero divisor. *)
Definition SFnonzero (x : spec_float) : bool :=
  match x with
  | S754_zero _ => false
  | _ => true
  end.

Local Close Scope float_scope.
Local Open Scope string_scope.

(** Does the character occur in the text? *)
Fixpoint occurs (c : ascii) (s : string) : bool :=
  match s with
  | EmptyString => false
  | String a rest => Ascii.eqb a c || occurs c rest
  end.

(** The fields of a frame, written with commas between them. *)
Fixpoint join_commas (fields : list string) : string :=
  match fields with
  | [] => EmptyString
  | [f] => f
  | f :: rest => f ++ String "," (join_commas rest)
  end.

(** ** A sample configuration

    The provider of the specification's examples, [acme], configured with
    the single model [acme-small] and no key; used to run the model. *)

(** The special tokens of tiktoken's [cl100k_base] encoding. *)
Definition cl100k_special_tokens : list string :=
  ["<|endoftext|>"; "<|fim_prefix|>"; "<|fim_middle|>"; "<|fim_suffix|>";
   "<|endofprompt|>"].

(** [part in text] *)
Definition holds (part text : string) : bool :=
  match String.index 0 part text with
  | Some _ => true
  | None => false
  end.

(** A tokenizer to run the model on: one token per character. As
    tiktoken's [encode] does with its default [disallowed_special],
    [Cl100kBase] refuses a text that holds one of its special tokens. *)
Definition char_tokens (t : Provider.Tokenizer) (s : string) : result (list Z) :=
  let ids := map (fun c => Z.of_nat (nat_of_ascii c)) (list_ascii_of_string s) in
  match t with
  | Provider.Cl100kBase =>
      if existsb (fun special => holds special s) cl100k_special_tokens
      then Raise ValueError
      else Ok ids
  | _ => Ok ids
  end.

Definition acme_small : ModelConfig :=
  {| mode := "chat";
     max_tokens := 4096;
     input_token_cost := 0.0000152587890625;
     output_token_cost := 0.000030517578125 |}.

Definition acme_config : Provider.Config :=
  {| Provider.provider := "acme";
     Provider.name := "Acme";
     Provider.keys := None;
     Provider.models := Some [("acme-small", acme_small)] |}.

Definition acme_request (model : string) : Provider.ChatRequest :=
  {| Provider.api_key := None;
     Provider.model := model;
     Provider.chat_input := "Hello";
     Provider.parameters := None;
     Provider.is_stream := Some false;
     Provider.has_end_token := Some false |}.

Definition quiet_world : Provider.World :=
  {| Provider.upstream_calls := [];
     Provider.uuid_source := fun n => "uuid-" ++ decimal_int (Z.of_nat n);
     Provider.uuids_drawn := 0;
     Provider.clock := fun n => of_uint63 (of_Z (1700000000 + Z.of_nat n));
     Provider.clock_reads := 0 |}.

Definition acme_engine : Engine.EngineConfig :=
  {| Engine.providers :=
       [("acme",
         {| Engine.id := "acme"; Engine.name := "Acme";
            Engine.chat := true; Engine.embed := false;
            Engine.keys := None;
            Engine.models := Some [("acme-small", acme_small)];
            Engine.parameters := None |});
        ("idle",
         {| Engine.id := "idle"; Engine.name := "Idle";
            Engine.chat := true; Engine.embed := false;
            Engine.keys := None;
            Engine.models := None;
            Engine.parameters := None |})] |}.

Definition sample_usage : Provider.UsageRecord :=
  {| Provider.input_tokens := 3;
     Provider.output_tokens := 7;
     Provider.total_tokens := 10;
     Provider.cost := 0.000244140625 |}.

Definition sample_metrics (latency : float) : Provider.MetricsRecord :=
  {| Provider.latency := latency;
     Provider.time_to_first_token := 0.5;
     Provider.inter_token_latency := 0.25;
     Provider.tokens_per_second := 3.5 |}.

(** ** The routes of the engine application and the CSV export
    ([create_engine_app] in [llmstudio/engine/__init__.py]) *)

Module App.








(** [sep.join(xs)] *)
Fixpoint join (sep : string) (xs : list string) : string :=
  match xs with
  | [] => EmptyString
  | [x] => x
  | x :: rest => x ++ sep ++ join sep rest
  end.

Definition newline : string := String "010"%char EmptyString.

Section CsvExport.

(** A JSON value of the posted data, and [json.dumps] on it. *)
Variable V : Type.
Variable dumps : V -> string.

(** [";".join([json.dumps(value) for value in execution.values()])] *)
Definition row_text (execution : Dict.t V) : string :=
  join ";" (map dumps (map snd (Dict.items execution))).

Definition export_row (execution : Dict.t V) : string :=
  row_text execution ++ newline.

(** The CSV text [export] streams back for the posted list of executions. *)
Definition export (data : list (Dict.t V)) : string :=
  match data with
  | [] => EmptyString
  | first :: _ =>
      fold_left (fun csv_content execution => csv_content ++ export_row execution)
        data (join ";" (Dict.keys first) ++ newline)
  end.

End CsvExport.

End App.


(** The text before each occurrence of [c], and the text after the last. *)
Fixpoint split_on (c : ascii) (s : string) : list string :=
  match s with
  | EmptyString => [EmptyString]
  | String a rest =>
      if Ascii.eqb a c then EmptyString :: split_on c rest
      else match split_on c rest with
           | f :: fs => String a f :: fs
           | [] => [String a EmptyString]
           end
  end.

(** ** Reading the terminator frame back *)

(** [int(s)] on the decimal text of an int. *)
Definition parse_int (s : string) : option Z :=
  option_map Z.of_int (NilZero.int_of_string s).

(** The value of the field [key=value]. *)
Definition field_text (key : string) (f : string) : option string :=
  match split_at "=" f with
  | (k, Some v) => if String.eqb k key then Some v else None
  | (_, None) => None
  end.

(** The two token counts a consumer reads from the frame. *)
Definition read_token_counts (frame : string) : option (Z * Z) :=
  match split_commas frame with
  | [_; f1; f2; _; _; _; _; _] =>
      match field_text "input_tokens" f1, field_text "output_tokens" f2 with
      | Some a, Some b =>
          match parse_int a, parse_int b with
          | Some x, Some y => Some (x, y)
          | _, _ => None
          end
      | _, _ => None
      end
  | _ => None
  end.

(** ** Signs of binary64 values *)

(** Zero of either sign, or positive: the values [0 <= x] holds for. *)
Definition SFnonneg (x : spec_float) : bool :=
  match x with
  | S754_zero _ | S754_finite false _ _ | S754_infinity false => true
  | _ => false
  end.

(** The values [0 < x] holds for. *)
Definition SFpos (x : spec_float) : bool :=
  match x with
  | S754_finite false _ _ | S754_infinity false => true
  | _ => false
  end.

(** The values [x < 0] holds for. *)
Definition SFneg (x : spec_float) : bool :=
  match x with
  | S754_finite true _ _ | S754_infinity true => true
  | _ => false
  end.

(** Neither infinite nor NaN. *)
Definition SFfinite (x : spec_float) : bool :=
  match x with
  | S754_zero _ | S754_finite _ _ _ => true
  | _ => false
  end.

(** Two executions to export, with integer values. *)
Definition sample_executions : list (Dict.t Z) :=
  [[("input_tokens", 3); ("output_tokens", 7)];
   [("input_tokens", 5); ("output_tokens", 0)]].

Definition bare_config : Provider.Config :=
  {| Provider.provider := "acme";
     Provider.name := "Acme";
     Provider.keys := None;
     Provider.models := None |}.

(** * Properties *)

(** ** Binary64 facts

    Rounding a non-zero integer multiple of [2^e], [e] at or above the least
    exponent, never gives zero: every digit the rounding drops lies below
    the leading one. Subtraction and the conversion of integers are such
    roundings, so [y - x] is no zero when [x < y], and neither is the float
    of a positive length. *)

Section Binary64.

Local Open Scope Z_scope.

Lemma digits2_pos_bound (p : positive) :
  2 ^ (Zpos (digits2_pos p) - 1) <= Zpos p < 2 ^ Zpos (digits2_pos p).
Proof.
  induction p as [p IH | p IH | ]; simpl digits2_pos.
  - rewrite Pos2Z.inj_succ.
    replace (Z.succ (Zpos (digits2_pos p)) - 1) with (Z.succ (Zpos (digits2_pos p) - 1)) by lia.
    rewrite !Z.pow_succ_r by lia. lia.
  - rewrite Pos2Z.inj_succ.
    replace (Z.succ (Zpos (digits2_pos p)) - 1) with (Z.succ (Zpos (digits2_pos p) - 1)) by lia.
    rewrite !Z.pow_succ_r by lia. lia.
  - simpl. lia.
Qed.

Lemma shr_1_m (r : shr_record) :
  0 <= shr_m r -> shr_m (shr_1 r) = shr_m r / 2.
Proof.
  destruct r as [m r s]. intros Hm. cbn [shr_m] in Hm.
  destruct m as [ | [p | p | ] | p ]; cbn [shr_1 shr_m]; try lia; try reflexivity.
  - apply Z.div_unique with (r := 1); lia.
  - apply Z.div_unique with (r := 0); lia.
Qed.

Lemma iter_pos_shr_m (n : positive) : forall r,
  0 <= shr_m r -> shr_m (iter_pos shr_1 n r) = shr_m r / 2 ^ Zpos n.
Proof.
  induction n as [n IH | n IH | ]; intros r Hr; simpl iter_pos.
  - assert (HP : 0 < 2 ^ Zpos n) by (apply Z.pow_pos_nonneg; lia).
    assert (H1 : 0 <= shr_m (shr_1 r)) by (rewrite shr_1_m by assumption; apply Z.div_pos; lia).
    assert (H2 : 0 <= shr_m (iter_pos shr_1 n (shr_1 r)))
      by (rewrite IH by assumption; apply Z.div_pos; lia).
    rewrite IH, IH, shr_1_m by assumption.
    rewrite !Z.div_div by lia.
    f_equal. change (Zpos n~1) with (2 * Zpos n + 1).
    replace (2 * Zpos n + 1) with (1 + Zpos n + Zpos n) by lia.
    rewrite !Z.pow_add_r by lia. change (2 ^ 1) with 2. ring.
  - assert (HP : 0 < 2 ^ Zpos n) by (apply Z.pow_pos_nonneg; lia).
    assert (H2 : 0 <= shr_m (iter_pos shr_1 n r))
      by (rewrite IH by assumption; apply Z.div_pos; lia).
    rewrite IH, IH by assumption.
    rewrite !Z.div_div by lia.
    f_equal. change (Zpos n~0) with (2 * Zpos n).
    replace (2 * Zpos n) with (Zpos n + Zpos n) by lia.
    rewrite Z.pow_add_r by lia. ring.
  - now rewrite shr_1_m.
Qed.

Lemma shr_record_of_loc_m m l : shr_m (shr_record_of_loc m l) = m.
Proof. destruct l as [ | [ | | ] ]; reflexivity. Qed.

Lemma shr_fexp_pos (m e : Z) (l : location) :
  1 <= m -> SpecFloat.emin prec emax <= e ->
  1 <= shr_m (fst (shr_fexp prec emax m e l)) /\
  e <= snd (shr_fexp prec emax m e l).
Proof.
  intros Hm He. unfold shr_fexp, shr.
  destruct (fexp prec emax (Zdigits2 m + e) - e) as [ | p | p ] eqn:Hn; simpl;
    rewrite ?shr_record_of_loc_m; try lia.
  rewrite iter_pos_shr_m by (rewrite shr_record_of_loc_m; lia).
  rewrite shr_record_of_loc_m.
  split; [ | lia ].
  destruct m as [ | q | q ]; try lia.
  simpl Zdigits2 in Hn.
  pose proof (digits2_pos_bound q) as [Hlo _].
  unfold fexp, SpecFloat.emin, prec, emax in *.
  assert (Hp : Zpos p <= Zpos (digits2_pos q) - 1) by lia.
  apply Z.div_le_lower_bound; [ apply Z.pow_pos_nonneg; lia | ].
  rewrite Z.mul_1_r.
  apply Z.le_trans with (2 ^ (Zpos (digits2_pos q) - 1)); [ | assumption ].
  apply Z.pow_le_mono_r; lia.
Qed.

Lemma round_nearest_even_pos m l : 1 <= m -> 1 <= round_nearest_even m l.
Proof.
  intros Hm. destruct l as [ | [ | | ] ]; simpl; try lia.
  destruct (Z.even m); lia.
Qed.

Lemma binary_round_aux_nonzero s m e l :
  1 <= m -> SpecFloat.emin prec emax <= e ->
  SFnonzero (binary_round_aux prec emax s m e l) = true.
Proof.
  intros Hm He. unfold binary_round_aux.
  pose proof (shr_fexp_pos m e l Hm He) as [H1 H2].
  destruct (shr_fexp prec emax m e l) as [mrs' e'] eqn:E1. simpl in H1, H2.
  pose proof (shr_fexp_pos (round_nearest_even (shr_m mrs') (loc_of_shr_record mrs')) e' loc_Exact
                (round_nearest_even_pos _ _ H1) ltac:(lia)) as [H3 H4].
  destruct (shr_fexp prec emax _ e' loc_Exact) as [mrs'' e''] eqn:E2. simpl in H3, H4.
  destruct (shr_m mrs'') as [ | q | q ]; try lia.
  destruct (e'' <=? emax - prec); reflexivity.
Qed.

Lemma shl_align_exponent m e e' :
  SpecFloat.emin prec emax <= e -> SpecFloat.emin prec emax <= e' ->
  SpecFloat.emin prec emax <= snd (shl_align m e e').
Proof.
  intros H1 H2. unfold shl_align. destruct (e' - e); simpl; assumption.
Qed.

Lemma binary_round_nonzero s m e :
  SpecFloat.emin prec emax <= e ->
  SFnonzero (binary_round prec emax s m e) = true.
Proof.
  intros He. unfold binary_round.
  pose proof (shl_align_exponent m e (fexp prec emax (Zpos (digits2_pos m) + e)) He) as Hs.
  destruct (shl_align m e _) as [mz ez]. simpl in Hs.
  apply binary_round_aux_nonzero; [ lia | ].
  apply Hs. unfold fexp. lia.
Qed.

Lemma binary_normalize_nonzero m e sz :
  m <> 0 -> SpecFloat.emin prec emax <= e ->
  SFnonzero (binary_normalize prec emax m e sz) = true.
Proof.
  intros Hm He. destruct m; [ congruence | | ]; simpl; now apply binary_round_nonzero.
Qed.

Lemma eqb_zero_spec x : (x =? 0)%float = negb (SFnonzero (Prim2SF x)).
Proof.
  rewrite FloatAxioms.eqb_spec. change (Prim2SF 0%float) with (S754_zero false).
  destruct (Prim2SF x) as [ | [ | ] | | [ | ] ? ? ]; reflexivity.
Qed.

Lemma mul_comm (x y : float) : (x * y = y * x)%float.
Proof.
  apply Prim2SF_inj. rewrite !FloatAxioms.mul_spec.
  unfold SF64mul, SFmul.
  destruct (Prim2SF x) as [sx | sx | | sx mx ex], (Prim2SF y) as [sy | sy | | sy my ey];
    try reflexivity; rewrite (xorb_comm sx sy); try reflexivity.
  now rewrite Pos.mul_comm, Z.add_comm.
Qed.

Lemma of_uint63_nonzero (n : int) :
  1 <= Uint63.to_Z n -> (of_uint63 n =? 0)%float = false.
Proof.
  intros Hn. rewrite eqb_zero_spec, of_uint63_spec.
  rewrite binary_normalize_nonzero; [ reflexivity | lia | ].
  unfold SpecFloat.emin, prec, emax. lia.
Qed.

Lemma shl_align_value m e e' :
  e' <= e -> Zpos (fst (shl_align m e e')) = Zpos m * 2 ^ (e - e').
Proof.
  intros H. unfold shl_align.
  destruct (e' - e) as [ | d | d ] eqn:Hd; try lia.
  - replace (e - e') with 0 by lia. simpl. lia.
  - simpl fst. replace (e - e') with (Zpos d) by lia.
    clear. revert m. induction d using Pos.peano_ind; intros m.
    + simpl. lia.
    + rewrite Pos.iter_succ, Pos2Z.inj_succ, Z.pow_succ_r by lia.
      rewrite Pos2Z.inj_xO, IHd. ring.
Qed.

Lemma canonical_digits m e :
  bounded prec emax m e = true ->
  SpecFloat.emin prec emax <= e /\ Zpos (digits2_pos m) <= prec /\
  (SpecFloat.emin prec emax < e -> Zpos (digits2_pos m) = prec).
Proof.
  unfold bounded, canonical_mantissa, fexp, SpecFloat.emin, prec, emax.
  intros H. apply andb_prop in H as [H _]. apply Z.eqb_eq in H. lia.
Qed.

Lemma aligned_mantissas_differ mx ex my ey :
  bounded prec emax mx ex = true -> bounded prec emax my ey = true ->
  (ex <> ey \/ mx <> my) ->
  Zpos (fst (shl_align mx ex (Z.min ey ex))) <> Zpos (fst (shl_align my ey (Z.min ey ex))).
Proof.
  intros Bx By Hne.
  apply canonical_digits in Bx as (Ex & Dx & Nx), By as (Ey & Dy & Ny).
  rewrite !shl_align_value by lia.
  pose proof (digits2_pos_bound mx) as [Lx Ux].
  pose proof (digits2_pos_bound my) as [Ly Uy].
  unfold prec in *.
  destruct (Z.compare_spec ex ey) as [E | E | E].
  - subst ey. rewrite Z.min_id, Z.sub_diag. simpl.
    destruct Hne as [ | Hm]; [ congruence | ]. intros H. apply Hm.
    assert (Zpos mx = Zpos my) by lia. congruence.
  - rewrite Z.min_r by lia. rewrite Z.sub_diag, Z.pow_0_r, Z.mul_1_r.
    rewrite Ny in * by lia.
    assert (2 ^ 1 <= 2 ^ (ey - ex)) by (apply Z.pow_le_mono_r; lia).
    assert (Zpos mx < 2 ^ 53) by (eapply Z.lt_le_trans; [ apply Ux | apply Z.pow_le_mono_r; lia ]).
    change (2 ^ (53 - 1)) with 4503599627370496 in Ly.
    change (2 ^ 53) with 9007199254740992 in *. change (2 ^ 1) with 2 in *. nia.
  - rewrite Z.min_l by lia. rewrite Z.sub_diag, Z.pow_0_r, Z.mul_1_r.
    rewrite Nx in * by lia.
    assert (2 ^ 1 <= 2 ^ (ex - ey)) by (apply Z.pow_le_mono_r; lia).
    assert (Zpos my < 2 ^ 53) by (eapply Z.lt_le_trans; [ apply Uy | apply Z.pow_le_mono_r; lia ]).
    change (2 ^ (53 - 1)) with 4503599627370496 in Lx.
    change (2 ^ 53) with 9007199254740992 in *. change (2 ^ 1) with 2 in *. nia.
Qed.

Lemma SFsub_lt_nonzero (x y : spec_float) :
  valid_binary x = true -> valid_binary y = true ->
  SFltb x y = true -> SFnonzero (SF64sub y x) = true.
Proof.
  intros Vx Vy Hlt. unfold SFltb in Hlt.
  destruct x as [sx | sx | | sx mx ex], y as [sy | sy | | sy my ey];
    simpl in Hlt; try discriminate;
    try (destruct sx; try destruct sy; simpl in *; try discriminate; reflexivity);
    try (destruct sy; simpl in *; try discriminate; reflexivity).
  unfold SF64sub, SFsub. simpl in Vx, Vy.
  apply binary_normalize_nonzero.
  - destruct (Bool.eqb sx sy) eqn:Hs.
    + apply Bool.eqb_prop in Hs. subst sy.
      assert (Hd : ex <> ey \/ mx <> my).
      { destruct (Z.eq_dec ex ey) as [-> | ]; [ right | now left ].
        intros ->. rewrite Z.compare_refl in Hlt.
        rewrite Pos.compare_cont_refl in Hlt.
        destruct sx; simpl in Hlt; discriminate. }
      pose proof (aligned_mantissas_differ mx ex my ey Vx Vy Hd) as Hne.
      destruct sx; unfold cond_Zopp; lia.
    + generalize (fst (shl_align my ey (Z.min ey ex))) (fst (shl_align mx ex (Z.min ey ex))).
      intros p q. destruct sx, sy; simpl in Hs, Hlt; try discriminate; unfold cond_Zopp; lia.
  - apply canonical_digits in Vx as (Ex & _), Vy as (Ey & _). lia.
Qed.

Lemma sub_lt_nonzero (x y : float) :
  (x <? y)%float = true -> (y - x =? 0)%float = false.
Proof.
  intros H. rewrite eqb_zero_spec, FloatAxioms.sub_spec.
  rewrite SFsub_lt_nonzero; [ reflexivity | apply Prim2SF_valid .. | ].
  now rewrite <- FloatAxioms.ltb_spec.
Qed.

End Binary64.

(** ** Conversions and divisions that succeed *)

Ltac sequence_small := unfold sequence, maxsize, len; cbn; lia.

Ltac encoding_small :=
  let enc := fresh "enc" in
  let H := fresh "H" in
  intros enc H; vm_compute in H;
  first [ discriminate H | injection H as <-; sequence_small ].

Lemma float_of_int_small (z : Z) :
  0 <= z < 2 ^ 63 -> float_of_int z = Ok (of_uint63 (of_Z z)).
Proof.
  intros Hz. unfold float_of_int.
  rewrite Z.abs_eq by lia.
  destruct (Z.ltb_spec z (2 ^ 63)); [ | lia ].
  destruct (Z.ltb_spec z 0); [ lia | reflexivity ].
Qed.

(** Every count a sequence can have converts. *)
Lemma float_of_int_returns (z : Z) :
  Z.abs z <= maxsize -> returns (float_of_int z) = true.
Proof.
  intros Hz. unfold maxsize in Hz. unfold float_of_int.
  destruct (Z.ltb_spec (Z.abs z) (2 ^ 63)); [ reflexivity | lia ].
Qed.

Lemma of_Z_nonzero (z : Z) :
  1 <= z < 2 ^ 63 -> (of_uint63 (of_Z z) =? 0)%float = false.
Proof.
  intros Hz. apply of_uint63_nonzero.
  rewrite of_Z_spec. change wB with (2 ^ 63). rewrite Z.mod_small; lia.
Qed.

Lemma float_truediv_int_len {A : Type} (a : float) (xs : list A) :
  xs <> [] -> sequence xs ->
  float_truediv_int a (len xs) = Ok (a / of_uint63 (of_Z (len xs)))%float.
Proof.
  intros Hne Hlen. unfold sequence, maxsize in Hlen.
  assert (1 <= len xs) by (destruct xs; [ congruence | unfold len; simpl List.length; lia ]).
  unfold float_truediv_int. rewrite float_of_int_small by lia. simpl.
  unfold float_truediv. now rewrite of_Z_nonzero by lia.
Qed.

Lemma mean_nonempty (xs : list float) :
  xs <> [] -> sequence xs ->
  mean xs = Ok (float_sum xs / of_uint63 (of_Z (len xs)))%float.
Proof.
  intros Hne Hlen. unfold mean.
  destruct xs as [ | x xs']; [ congruence | ].
  now apply float_truediv_int_len.
Qed.

Lemma float_mul_int_len (c : float) (z : Z) :
  0 <= z < 2 ^ 63 -> float_mul_int c z = Ok (of_uint63 (of_Z z) * c)%float.
Proof.
  intros Hz. unfold float_mul_int. rewrite float_of_int_small by assumption.
  simpl. now rewrite mul_comm.
Qed.

Lemma len_nonneg {A : Type} (xs : list A) : 0 <= len xs.
Proof. unfold len. lia. Qed.

(** ** Usage *)

Section Usage.

Variable encode : Provider.Tokenizer -> string -> result (list Z).


End Usage.



(** ** Chat *)

(** C6. A request whose model is not in the provider's configured mapping
    makes [chat] fail with the HTTP 400 error that names the model and the
    provider, the specification's unsupported-model error, and the world is
    left as it was: nothing has been sent upstream. *)
Theorem chat_unsupported_model (self : Provider.t) (request : Provider.ChatRequest)
    (table : Dict.t ModelConfig) (w : Provider.World) :
  Provider.models (Provider.config self) = Some table ->
  Dict.contains (Provider.model request) table = false ->
  exists e,
    Provider.chat self request w = (Raise e, w) /\
    e = HTTPException 400
          ("Model " ++ Provider.model request ++
           " is not supported by " ++ Provider.name (Provider.config self)) /\
    taxonomy e = Some UnsupportedModelError /\
    Provider.upstream_calls (snd (Provider.chat self request w)) =
    Provider.upstream_calls w.
Proof.
  intros Htable Hmiss. eexists. unfold Provider.chat.
  rewrite Htable, Hmiss. cbn [negb Provider.raise snd].
  repeat split.
Qed.

Lemma chat_unsupported_model_witness :
  exists e,
    Provider.chat (Provider.init acme_config) (acme_request "acme-large") quiet_world =
      (Raise e, quiet_world) /\
    e = HTTPException 400 "Model acme-large is not supported by Acme" /\
    taxonomy e = Some UnsupportedModelError /\
    Provider.upstream_calls
      (snd (Provider.chat (Provider.init acme_config) (acme_request "acme-large") quiet_world)) =
    [].
Proof.
  exact (chat_unsupported_model (Provider.init acme_config) (acme_request "acme-large")
           [("acme-small", acme_small)] quiet_world eq_refl eq_refl).
Defined.

(** C7 (as amended). For a request with no key of its own and a
    configuration with no key, [chat] sends nothing upstream and raises no
    credentials error. It has three outcomes: it returns when the model is
    in the configured mapping, fails with the unsupported-model error
    (HTTP 400) when the mapping lacks the model, and fails with
    [TypeError] when the configuration has no mapping of models. *)
Theorem chat_without_credentials (self : Provider.t) (request : Provider.ChatRequest)
    (w : Provider.World) :
  Provider.api_key request = None ->
  Provider.keys (Provider.config self) = None ->
  snd (Provider.chat self request w) = w /\
  (forall table, Provider.models (Provider.config self) = Some table ->
     Dict.contains (Provider.model request) table = true ->
     fst (Provider.chat self request w) = Ok tt) /\
  (forall table, Provider.models (Provider.config self) = Some table ->
     Dict.contains (Provider.model request) table = false ->
     exists detail,
       fst (Provider.chat self request w) = Raise (HTTPException 400 detail) /\
       taxonomy (HTTPException 400 detail) = Some UnsupportedModelError) /\
  (Provider.models (Provider.config self) = None ->
   fst (Provider.chat self request w) = Raise TypeError /\
   taxonomy TypeError = None).
Proof.
  intros _ _. unfold Provider.chat.
  destruct (Provider.models (Provider.config self)) as [table | ].
  - destruct (Dict.contains (Provider.model request) table) eqn:Hc; cbn [negb].
    + split; [ reflexivity | split; [ | split ] ].
      * reflexivity.
      * intros t [= <-] H. congruence.
      * discriminate.
    + split; [ reflexivity | split; [ | split ] ].
      * intros t [= <-] H. congruence.
      * intros t _ _. eexists. split; reflexivity.
      * discriminate.
  - split; [ reflexivity | split; [ | split ] ].
    + discriminate.
    + discriminate.
    + intros _. split; reflexivity.
Qed.

Lemma chat_without_credentials_witness :
  snd (Provider.chat (Provider.init acme_config) (acme_request "acme-small") quiet_world) =
    quiet_world /\
  fst (Provider.chat (Provider.init acme_config) (acme_request "acme-small") quiet_world) =
    Ok tt /\
  fst (Provider.chat (Provider.init bare_config) (acme_request "acme-small") quiet_world) =
    Raise TypeError.
Proof.
  destruct (chat_without_credentials (Provider.init acme_config) (acme_request "acme-small")
              quiet_world eq_refl eq_refl)
    as (H1 & H2 & _).
  destruct (chat_without_credentials (Provider.init bare_config) (acme_request "acme-small")
              quiet_world eq_refl eq_refl)
    as (_ & _ & _ & H4).
  split; [ exact H1 | split ].
  - exact (H2 _ eq_refl eq_refl).
  - exact (proj1 (H4 eq_refl)).
Defined.

(** C7, the claim as stated fails: with no key in the request and none in
    the configuration, [chat] on a configured model returns without any
    error. *)
Lemma chat_without_credentials_returns :
  Provider.api_key (acme_request "acme-small") = None /\
  Provider.keys acme_config = None /\
  Provider.chat (Provider.init acme_config) (acme_request "acme-small") quiet_world =
    (Ok tt, quiet_world).
Proof. repeat split. Qed.

(** ** Tokenizer resolution *)

(** C8. The resolver picks among three distinct tokenizers by exact match of
    the provider identifier: the two vendor ones for [anthropic] and
    [cohere], and the default, [cl100k_base], for every other identifier. *)
Theorem get_tokenizer_spec (cfg : Provider.Config) :
  (Provider.provider cfg = "anthropic" ->
   Provider._get_tokenizer cfg = Provider.AnthropicTokenizer) /\
  (Provider.provider cfg = "cohere" ->
   Provider._get_tokenizer cfg = Provider.CohereCommandNightly) /\
  (Provider.provider cfg <> "anthropic" -> Provider.provider cfg <> "cohere" ->
   Provider._get_tokenizer cfg = Provider.Cl100kBase) /\
  Provider.AnthropicTokenizer <> Provider.CohereCommandNightly /\
  Provider.AnthropicTokenizer <> Provider.Cl100kBase /\
  Provider.CohereCommandNightly <> Provider.Cl100kBase.
Proof.
  unfold Provider._get_tokenizer, Dict.get_default. cbn [Dict.get].
  repeat split; try discriminate.
  - intros ->. reflexivity.
  - intros ->. reflexivity.
  - intros Ha Hc.
    destruct (String.eqb_spec "anthropic" (Provider.provider cfg)); [ congruence | ].
    destruct (String.eqb_spec "cohere" (Provider.provider cfg)); [ congruence | ].
    reflexivity.
Qed.

Lemma get_tokenizer_spec_witness :
  Provider._get_tokenizer acme_config = Provider.Cl100kBase.
Proof.
  destruct (get_tokenizer_spec acme_config) as (_ & _ & H & _).
  apply H; discriminate.
Defined.

(** ** Responses *)

(** C10. [generate_response] fails on a request whose parameters are [None]:
    the attribute lookup on [None] raises. On a request with parameters it
    returns a response in which only the echoed parameters depend on them. *)
Theorem generate_response_parameters (self : Provider.t) (request : Provider.ChatRequest)
    (chat_output : string) (usage : Provider.UsageRecord) (metrics : Provider.MetricsRecord)
    (w : Provider.World) :
  (Provider.parameters request = None ->
   fst (Provider.generate_response self request chat_output usage metrics w) =
   Raise AttributeError) /\
  (forall p, Provider.parameters request = Some p ->
   fst (Provider.generate_response self request chat_output usage metrics w) =
   Ok {| Provider.response_id := Provider.uuid_source w (Provider.uuids_drawn w);
         Provider.response_chat_input := Provider.chat_input request;
         Provider.response_chat_output := chat_output;
         Provider.response_timestamp := Provider.clock w (Provider.clock_reads w);
         Provider.response_model := Provider.model request;
         Provider.response_usage := usage;
         Provider.response_metrics := metrics;
         Provider.response_parameters := Provider.model_dump p |}).
Proof.
  unfold Provider.generate_response, Provider.mbind, Provider.uuid4, Provider.time,
    Provider.dump_parameters.
  split.
  - intros ->. reflexivity.
  - intros p ->. reflexivity.
Qed.

(** ** Metrics *)

(** C2 (as amended). For a non-empty tuple of gaps, an end time strictly
    greater than the start time and a token count that converts to a float,
    [calculate_metrics] returns the record with latency [end - start], time
    to first token [first - start], inter-token latency the sum of the gaps
    divided by their number, and tokens per second the converted count
    divided by the latency. *)
Theorem calculate_metrics_spec (start_time end_time first_token_time : float)
    (token_times : list float) (token_count : Z) (count : float) :
  token_times <> [] ->
  sequence token_times ->
  (start_time <? end_time)%float = true ->
  float_of_int token_count = Ok count ->
  Provider.calculate_metrics start_time end_time first_token_time token_times token_count =
  Ok {| Provider.latency := (end_time - start_time)%float;
        Provider.time_to_first_token := (first_token_time - start_time)%float;
        Provider.inter_token_latency :=
          (float_sum token_times / of_uint63 (of_Z (len token_times)))%float;
        Provider.tokens_per_second := (count / (end_time - start_time))%float |}.
Proof.
  intros Hne Hlen Hlt Hcount.
  unfold Provider.calculate_metrics, int_truediv_float, float_truediv.
  rewrite mean_nonempty by assumption.
  rewrite Hcount. cbn [bind].
  now rewrite (sub_lt_nonzero _ _ Hlt).
Qed.

Lemma calculate_metrics_spec_witness :
  Provider.calculate_metrics 10 12 10.5 [0.5; 0.25; 0.75]%float 4 =
  Ok {| Provider.latency := (12 - 10)%float;
        Provider.time_to_first_token := (10.5 - 10)%float;
        Provider.inter_token_latency :=
          (float_sum [0.5; 0.25; 0.75] / of_uint63 (of_Z (len [0.5; 0.25; 0.75])))%float;
        Provider.tokens_per_second := (of_uint63 4 / (12 - 10))%float |}.
Proof.
  apply (calculate_metrics_spec 10 12 10.5 [0.5; 0.25; 0.75]%float 4 (of_uint63 4)).
  - discriminate.
  - sequence_small.
  - reflexivity.
  - reflexivity.
Defined.

(** C2, the claim as stated fails: a token count too large for a float makes
    the throughput division raise [OverflowError], with a non-empty gap
    tuple and the end after the start. *)
Lemma calculate_metrics_huge_count :
  [0.25%float] <> [] /\ (0 <? 1)%float = true /\
  Provider.calculate_metrics 0 1 0.5 [0.25%float] (2 ^ 1024) = Raise OverflowError.
Proof.
  split; [ discriminate | split; [ reflexivity | ] ].
  vm_compute. reflexivity.
Qed.

(** C3 (as amended). With an empty tuple of gaps [calculate_metrics] returns
    no record: the mean divides by the zero length and Python's
    [ZeroDivisionError] is raised, which is the specification's
    division-by-zero error, whatever the other arguments. *)
Theorem calculate_metrics_empty_gaps (start_time end_time first_token_time : float)
    (token_count : Z) :
  Provider.calculate_metrics start_time end_time first_token_time [] token_count =
    Raise ZeroDivisionError /\
  taxonomy ZeroDivisionError = Some DivisionByZeroError.
Proof. split; reflexivity. Qed.

(** C3, the claim as stated fails: the error raised on an empty tuple is not
    the specification's [InsufficientDataError]. *)
Lemma calculate_metrics_empty_gaps_error :
  exists e, Provider.calculate_metrics 10 12 10.5 [] 1 = Raise e /\
            taxonomy e <> Some InsufficientDataError.
Proof. exists ZeroDivisionError. split; [ reflexivity | discriminate ]. Qed.

(** The conversion of an int to a float fails in one way only. *)
Lemma float_of_int_raises (z : Z) (e : exn) :
  float_of_int z = Raise e -> e = OverflowError.
Proof.
  unfold float_of_int.
  destruct (Z.abs z <? 2 ^ 63)%Z; [ discriminate | ].
  destruct (binary_normalize prec emax z 0 false); congruence.
Qed.

(** C4 (as amended). When [end - start] compares equal to zero,
    [calculate_metrics] returns no record, hence none that holds an
    infinity or a NaN. The error is [ZeroDivisionError] when the gap tuple
    is empty or the token count converts to a float, and [OverflowError]
    when the gap tuple is not empty and the token count does not convert:
    the dividend is converted before the divisor is inspected. *)
Theorem calculate_metrics_zero_latency (start_time end_time first_token_time : float)
    (token_times : list float) (token_count : Z) :
  (end_time - start_time =? 0)%float = true ->
  sequence token_times ->
  let r := Provider.calculate_metrics start_time end_time first_token_time
             token_times token_count in
  returns r = false /\
  (token_times = [] \/ returns (float_of_int token_count) = true ->
   r = Raise ZeroDivisionError /\ taxonomy ZeroDivisionError = Some DivisionByZeroError) /\
  (token_times <> [] -> returns (float_of_int token_count) = false ->
   r = Raise OverflowError /\ taxonomy OverflowError = None).
Proof.
  intros Hzero Hlen r. subst r.
  unfold Provider.calculate_metrics, int_truediv_float, float_truediv.
  rewrite Hzero.
  destruct token_times as [ | t ts].
  - split; [ reflexivity | split ].
    + intros _; split; reflexivity.
    + intros H. now contradiction H.
  - rewrite mean_nonempty by (assumption || discriminate). cbn [bind].
    destruct (float_of_int token_count) as [count | e] eqn:Hcount;
      cbn [bind returns].
    + split; [ reflexivity | split ].
      * intros _; split; reflexivity.
      * discriminate.
    + split; [ reflexivity | split ].
      * intros [H | H]; discriminate.
      * intros _ _. apply float_of_int_raises in Hcount. subst e.
        split; reflexivity.
Qed.

Lemma calculate_metrics_zero_latency_witness :
  returns (Provider.calculate_metrics 10 10 10 [0.5]%float 3) = false /\
  Provider.calculate_metrics 10 10 10 [0.5]%float 3 = Raise ZeroDivisionError /\
  Provider.calculate_metrics 10 10 10 [0.5]%float (2 ^ 1024) = Raise OverflowError.
Proof.
  pose proof (calculate_metrics_zero_latency 10 10 10 [0.5]%float 3
                ltac:(reflexivity) ltac:(sequence_small)) as [H1 [H2 _]].
  pose proof (calculate_metrics_zero_latency 10 10 10 [0.5]%float (2 ^ 1024)
                ltac:(reflexivity) ltac:(sequence_small)) as [_ [_ H3]].
  split; [ exact H1 | split ].
  - apply H2. right. reflexivity.
  - apply H3; [ discriminate | vm_compute; reflexivity ].
Defined.

(** C4, the claim as stated fails: with a zero latency and a token count too
    large for a float the error is [OverflowError]; and away from a zero
    latency a record that holds an infinity is returned without any error,
    here from finite times whose difference overflows. *)
Lemma calculate_metrics_zero_latency_overflow :
  ((1 - 1 =? 0)%float = true /\
   Provider.calculate_metrics 1 1 1 [0.5%float] (2 ^ 1024) = Raise OverflowError /\
   taxonomy OverflowError <> Some DivisionByZeroError) /\
  Provider.calculate_metrics (- 0x1.fffffffffffffp+1023)%float 0x1.fffffffffffffp+1023%float
    0 [0.5%float] 1 =
  Ok {| Provider.latency := infinity;
        Provider.time_to_first_token := 0x1.fffffffffffffp+1023%float;
        Provider.inter_token_latency := 0.5%float;
        Provider.tokens_per_second := 0%float |}.
Proof.
  split; [ split; [ reflexivity | split; [ | discriminate ] ] | ];
    vm_compute; reflexivity.
Qed.

(** The model runs: a request of two seconds with four tokens, and the
    failures of the table lookup. *)
Example calculate_metrics_run :
  Provider.calculate_metrics 10 12 10.5 [0.5; 0.25; 0.75]%float 4 =
  Ok {| Provider.latency := 2%float;
        Provider.time_to_first_token := 0.5%float;
        Provider.inter_token_latency := 0.5%float;
        Provider.tokens_per_second := 2%float |}.
Proof. vm_compute. reflexivity. Qed.

Example calculate_usage_unknown_model :
  Provider.calculate_usage char_tokens (Provider.init acme_config)
    "Hello" "Hi there" "acme-large" = Raise (KeyError "acme-large").
Proof. reflexivity. Qed.

Example get_tokenizer_exact_match :
  Provider._get_tokenizer
    {| Provider.provider := "Anthropic"; Provider.name := "Anthropic";
       Provider.keys := None; Provider.models := None |} = Provider.Cl100kBase /\
  Provider._get_tokenizer
    {| Provider.provider := "anthropic"; Provider.name := "Anthropic";
       Provider.keys := None; Provider.models := None |} = Provider.AnthropicTokenizer.
Proof. split; reflexivity. Qed.

(** ** Texts *)

Section Texts.

Local Open Scope string_scope.

Lemma append_assoc (a b c : string) : (a ++ b) ++ c = a ++ (b ++ c).
Proof. induction a as [ | x a IH]; simpl; [ reflexivity | now rewrite IH ]. Qed.

Lemma append_empty_r (a : string) : a ++ "" = a.
Proof. induction a as [ | x a IH]; simpl; [ reflexivity | now rewrite IH ]. Qed.

Lemma occurs_app c a b : occurs c (a ++ b) = occurs c a || occurs c b.
Proof.
  induction a as [ | x a IH]; simpl; [ reflexivity | ].
  now rewrite IH, orb_assoc.
Qed.

Lemma all_digits_app a b : all_digits (a ++ b) = all_digits a && all_digits b.
Proof.
  induction a as [ | x a IH]; simpl; [ reflexivity | ].
  now rewrite IH, andb_assoc.
Qed.

Lemma all_digits_occurs c s :
  is_digit c = false -> all_digits s = true -> occurs c s = false.
Proof.
  intros Hc. induction s as [ | x s IH]; simpl; [ reflexivity | ].
  intros H. apply andb_prop in H as [Hx Hs].
  rewrite (IH Hs), orb_false_r.
  destruct (Ascii.eqb_spec x c); [ congruence | reflexivity ].
Qed.

Lemma digits1_all_digits s : digits1 s = true -> all_digits s = true.
Proof. destruct s; [ discriminate | trivial ]. Qed.

Lemma digits1_app_l a b :
  digits1 a = true -> all_digits b = true -> digits1 (a ++ b) = true.
Proof.
  destruct a as [ | x a]; [ discriminate | ].
  intros Ha Hb. change (all_digits (String x a ++ b) = true).
  rewrite all_digits_app. apply andb_true_intro. split; [ exact Ha | exact Hb ].
Qed.

Lemma digits1_app_r a b :
  all_digits a = true -> digits1 b = true -> digits1 (a ++ b) = true.
Proof.
  intros Ha Hb. destruct a as [ | x a]; [ exact Hb | ].
  change (all_digits (String x a ++ b) = true).
  rewrite all_digits_app, Ha. now apply digits1_all_digits.
Qed.

Lemma split_at_app c a b :
  occurs c a = false -> split_at c (a ++ String c b) = (a, Some b).
Proof.
  induction a as [ | x a IH]; simpl.
  - intros _. now rewrite Ascii.eqb_refl.
  - intros H. apply orb_false_elim in H as [Hx Ha].
    now rewrite Hx, (IH Ha).
Qed.

Lemma split_at_none c a : occurs c a = false -> split_at c a = (a, None).
Proof.
  induction a as [ | x a IH]; simpl; [ reflexivity | ].
  intros H. apply orb_false_elim in H as [Hx Ha].
  now rewrite Hx, (IH Ha).
Qed.

Lemma split_at_sound c s h t :
  split_at c s = (h, t) ->
  s = h ++ match t with Some r => String c r | None => "" end.
Proof.
  revert h t. induction s as [ | x s IH]; simpl; intros h t H.
  - now inversion H.
  - destruct (Ascii.eqb_spec x c) as [-> | Hx].
    + now inversion H.
    + destruct (split_at c s) as [h' t'] eqn:E. inversion H; subst.
      simpl. f_equal. now apply IH.
Qed.

Lemma split_commas_app a b :
  occurs "," a = false -> split_commas (a ++ String "," b) = a :: split_commas b.
Proof.
  induction a as [ | x a IH]; simpl.
  - reflexivity.
  - intros H. apply orb_false_elim in H as [Hx Ha].
    now rewrite Hx, (IH Ha).
Qed.

Lemma split_commas_last a : occurs "," a = false -> split_commas a = [a].
Proof.
  induction a as [ | x a IH]; simpl; [ reflexivity | ].
  intros H. apply orb_false_elim in H as [Hx Ha].
  now rewrite Hx, (IH Ha).
Qed.

Lemma split_join_commas (fields : list string) :
  fields <> [] -> forallb (fun f => negb (occurs "," f)) fields = true ->
  split_commas (join_commas fields) = fields.
Proof.
  induction fields as [ | f rest IH]; [ congruence | ].
  intros _ H. simpl in H. apply andb_prop in H as [Hf Hrest].
  apply negb_true_iff in Hf.
  destruct rest as [ | g rest'].
  - simpl. now apply split_commas_last.
  - change (join_commas (f :: g :: rest')) with (f ++ String "," (join_commas (g :: rest'))).
    rewrite split_commas_app by assumption.
    f_equal. apply IH; [ discriminate | assumption ].
Qed.

(** *** The literals hold no comma *)

Lemma signed_occurs (body : string -> bool) (c : ascii) (s : string) :
  Ascii.eqb "-" c = false ->
  (forall r, body r = true -> occurs c r = false) ->
  signed body s = true -> occurs c s = false.
Proof.
  intros Hc Hbody H. unfold signed in H.
  apply orb_prop in H as [H | H]; [ now apply Hbody | ].
  destruct s as [ | x s]; [ discriminate | ].
  destruct (Ascii.eqb_spec x "-") as [-> | Hx].
  - cbn [occurs]. rewrite Hc. cbn [orb]. now apply Hbody.
  - destruct x as [[|] [|] [|] [|] [|] [|] [|] [|]]; try discriminate; congruence.
Qed.

Lemma is_int_literal_no_comma s : is_int_literal s = true -> occurs "," s = false.
Proof.
  apply signed_occurs; [ reflexivity | ].
  intros r Hr. apply all_digits_occurs; [ reflexivity | now apply digits1_all_digits ].
Qed.

Lemma is_fixed_literal_no_comma k s : is_fixed_literal k s = true -> occurs "," s = false.
Proof.
  apply signed_occurs; [ reflexivity | ].
  intros r Hr. destruct (split_at "." r) as [ip [fp | ]] eqn:E; [ | discriminate ].
  apply split_at_sound in E. subst r.
  apply andb_prop in Hr as [Hr _]. apply andb_prop in Hr as [Hip Hfp].
  rewrite occurs_app. cbn [occurs].
  rewrite (all_digits_occurs "," _ eq_refl (digits1_all_digits _ Hip)).
  now rewrite (all_digits_occurs "," _ eq_refl Hfp).
Qed.

Lemma is_decimal_occurs c s :
  is_digit c = false -> Ascii.eqb "." c = false ->
  is_decimal s = true -> occurs c s = false.
Proof.
  intros Hd Hp H. unfold is_decimal in H.
  destruct (split_at "." s) as [ip [fp | ]] eqn:E; apply split_at_sound in E; subst s.
  - apply andb_prop in H as [Hip Hfp].
    rewrite occurs_app. cbn [occurs]. rewrite Hp.
    rewrite (all_digits_occurs c _ Hd (digits1_all_digits _ Hip)).
    now rewrite (all_digits_occurs c _ Hd (digits1_all_digits _ Hfp)).
  - rewrite append_empty_r.
    apply (all_digits_occurs _ _ Hd (digits1_all_digits _ H)).
Qed.

Lemma is_exponent_no_comma s : is_exponent s = true -> occurs "," s = false.
Proof.
  destruct s as [ | x s]; [ discriminate | ].
  intros H.
  assert (Hs : digits1 s = true /\ Ascii.eqb x "," = false).
  { destruct x as [[|] [|] [|] [|] [|] [|] [|] [|]]; try discriminate; now split. }
  destruct Hs as [Hs Hx]. cbn [occurs]. rewrite Hx.
  apply (all_digits_occurs "," _ eq_refl (digits1_all_digits _ Hs)).
Qed.

Lemma is_float_literal_no_comma s : is_float_literal s = true -> occurs "," s = false.
Proof.
  apply signed_occurs; [ reflexivity | ].
  intros r Hr. unfold float_body in Hr.
  apply orb_prop in Hr as [Hr | Hr];
    [ apply orb_prop in Hr as [Hr | Hr]; apply String.eqb_eq in Hr; now subst r | ].
  destruct (split_at "e" r) as [mant [ex | ]] eqn:E; apply split_at_sound in E; subst r.
  - apply andb_prop in Hr as [Hm He].
    rewrite occurs_app. cbn [occurs].
    rewrite (is_decimal_occurs "," _ eq_refl eq_refl Hm).
    now apply is_exponent_no_comma.
  - rewrite append_empty_r. now apply (is_decimal_occurs "," _ eq_refl eq_refl).
Qed.

End Texts.

(** ** Printed numbers are literals *)

Section Literals.

Local Open Scope string_scope.

Lemma string_of_uint_all_digits (d : Decimal.uint) :
  all_digits (NilEmpty.string_of_uint d) = true.
Proof. induction d; simpl; trivial. Qed.

Lemma string_of_uint_digits1 (d : Decimal.uint) :
  digits1 (NilZero.string_of_uint d) = true.
Proof.
  destruct d; try reflexivity;
    apply (string_of_uint_all_digits (_ d)) || exact (string_of_uint_all_digits d).
Qed.

Lemma decimal_int_digits1 (z : Z) : 0 <= z -> digits1 (decimal_int z) = true.
Proof.
  intros Hz. unfold decimal_int. destruct z as [ | p | p ]; [ reflexivity | | lia ].
  apply string_of_uint_digits1.
Qed.

Lemma decimal_int_literal (z : Z) : is_int_literal (decimal_int z) = true.
Proof.
  unfold is_int_literal, signed.
  destruct z as [ | p | p ].
  - reflexivity.
  - now rewrite (decimal_int_digits1 (Zpos p)) by lia.
  - unfold decimal_int. cbn [Z.to_int NilZero.string_of_int].
    rewrite string_of_uint_digits1. apply orb_true_r.
Qed.

Lemma digit_char_is_digit (d : Z) : is_digit (digit_char d) = true.
Proof.
  unfold is_digit, digit_char.
  pose proof (Z.mod_pos_bound d 10 ltac:(lia)) as Hd.
  rewrite nat_ascii_embedding by lia.
  apply andb_true_intro. split; apply Nat.leb_le; lia.
Qed.

Lemma frac_digits_all_digits (k : nat) : forall r, all_digits (frac_digits k r) = true.
Proof.
  induction k as [ | k IH]; intros r; cbn [frac_digits all_digits]; [ reflexivity | ].
  now rewrite digit_char_is_digit, IH.
Qed.

Lemma frac_digits_length (k : nat) : forall r, String.length (frac_digits k r) = k.
Proof.
  induction k as [ | k IH]; intros r; simpl; [ reflexivity | ].
  now rewrite IH.
Qed.

Lemma zeros_all_digits (n : nat) : all_digits (zeros n) = true.
Proof. induction n; simpl; trivial. Qed.

Lemma signed_sign (body : string -> bool) (s : bool) (text : string) :
  body text = true -> signed body (sign_string s ++ text) = true.
Proof.
  intros H. unfold signed. destruct s; simpl.
  - rewrite H. apply orb_true_r.
  - now rewrite H.
Qed.

Lemma fixed_point_literal (k : nat) (n : Z) (s : bool) :
  k <> O -> 0 <= n -> is_fixed_literal k (sign_string s ++ fixed_point k n) = true.
Proof.
  intros Hk Hn. unfold is_fixed_literal. apply signed_sign.
  unfold fixed_point. destruct k as [ | k']; [ congruence | ].
  assert (Hq : digits1 (decimal_int (n / 10 ^ Z.of_nat (S k'))) = true).
  { apply decimal_int_digits1. apply Z.div_pos; [ assumption | ].
    apply Z.pow_pos_nonneg; lia. }
  change ("." ++ ?x) with (String "." x).
  rewrite split_at_app
    by (apply all_digits_occurs; [ reflexivity | now apply digits1_all_digits ]).
  rewrite Hq, frac_digits_all_digits, frac_digits_length, Nat.eqb_refl.
  reflexivity.
Qed.

Lemma round_half_even_nonneg (num den : Z) :
  0 <= num -> 0 < den -> 0 <= round_half_even num den.
Proof.
  intros Hn Hd. unfold round_half_even.
  pose proof (Z.div_pos num den Hn Hd).
  destruct (2 * (num mod den) ?= den)%Z; [ destruct (Z.even (num / den)) | | ]; lia.
Qed.

Lemma scaled_round_nonneg (m : positive) (e : Z) (k : nat) : 0 <= scaled_round m e k.
Proof.
  unfold scaled_round.
  assert (0 < 10 ^ Z.of_nat k) by (apply Z.pow_pos_nonneg; lia).
  destruct (Z.leb_spec 0 e).
  - assert (0 < 2 ^ e) by (apply Z.pow_pos_nonneg; lia). nia.
  - apply round_half_even_nonneg; [ nia | apply Z.pow_pos_nonneg; lia ].
Qed.

Lemma is_finite_Prim2SF (x : float) :
  is_finite x = true ->
  match Prim2SF x with
  | S754_zero _ | S754_finite _ _ _ => True
  | S754_infinity _ | S754_nan => False
  end.
Proof.
  unfold is_finite, Prim2SF.
  destruct (PrimFloat.is_nan x); [ discriminate | ].
  destruct (PrimFloat.is_infinity x); [ discriminate | ]. intros _.
  destruct (PrimFloat.is_zero x); [ exact I | ].
  destruct (Z.frexp x) as [r ex].
  destruct (shr_fexp prec emax _ _ _) as [mrs e'].
  destruct (shr_m mrs); exact I.
Qed.

Lemma format_f_literal (k : nat) (x : float) :
  k <> O -> is_finite x = true -> is_fixed_literal k (format_f k x) = true.
Proof.
  intros Hk Hx. apply is_finite_Prim2SF in Hx. unfold format_f.
  destruct (Prim2SF x) as [s | s | | s m e]; try contradiction.
  - apply fixed_point_literal; [ assumption | lia ].
  - apply fixed_point_literal; [ assumption | apply scaled_round_nonneg ].
Qed.

End Literals.

(** ** [str] of a float is a float literal *)

Section FloatLiteral.

Local Open Scope string_scope.

Lemma substring_all_digits (s : string) : forall i n,
  all_digits s = true -> all_digits (substring i n s) = true.
Proof.
  induction s as [ | c s IH]; intros i n H.
  - destruct i, n; reflexivity.
  - cbn [all_digits] in H. apply andb_prop in H as [Hc Hs].
    destruct i as [ | i]; [ destruct n as [ | n]; [ reflexivity | ] | ].
    + cbn [substring all_digits]. now rewrite Hc, IH.
    + cbn [substring]. now apply IH.
Qed.

Lemma substring_length (s : string) : forall i n,
  String.length (substring i n s) = Nat.min n (String.length s - i).
Proof.
  induction s as [ | c s IH]; intros i n.
  - destruct i, n; reflexivity.
  - destruct i as [ | i]; [ destruct n as [ | n]; [ reflexivity | ] | ].
    + cbn [substring String.length]. rewrite IH. simpl. now rewrite Nat.sub_0_r.
    + cbn [substring String.length]. now rewrite IH.
Qed.

Lemma digits1_of_length (s : string) :
  all_digits s = true -> (0 < String.length s)%nat -> digits1 s = true.
Proof. destruct s; simpl; [ lia | trivial ]. Qed.

Lemma digits1_length (s : string) : digits1 s = true -> (0 < String.length s)%nat.
Proof. destruct s; simpl; [ discriminate | lia ]. Qed.

Lemma decimal_intro (ip fp : string) :
  digits1 ip = true -> digits1 fp = true -> is_decimal (ip ++ String "." fp) = true.
Proof.
  intros Hi Hf. unfold is_decimal.
  rewrite split_at_app
    by (apply all_digits_occurs; [ reflexivity | now apply digits1_all_digits ]).
  now rewrite Hi, Hf.
Qed.

Lemma decimal_whole (ip : string) : digits1 ip = true -> is_decimal ip = true.
Proof.
  intros Hi. unfold is_decimal.
  rewrite split_at_none
    by (apply all_digits_occurs; [ reflexivity | now apply digits1_all_digits ]).
  exact Hi.
Qed.

Lemma float_body_positional (mant : string) :
  is_decimal mant = true -> float_body mant = true.
Proof.
  intros H. unfold float_body.
  rewrite split_at_none by (now apply is_decimal_occurs).
  rewrite H. apply orb_true_r.
Qed.

Lemma float_body_exponent (mant : string) (negative : bool) (digits : string) :
  is_decimal mant = true -> digits1 digits = true ->
  float_body (mant ++ String "e" (String (if negative then "-" else "+")%char digits)) = true.
Proof.
  intros Hm Hd. unfold float_body.
  rewrite split_at_app by (now apply is_decimal_occurs).
  rewrite Hm. destruct negative; cbn [is_exponent]; rewrite Hd; apply orb_true_r.
Qed.

Lemma repr_layout_body (ds : string) (decpt : Z) :
  digits1 ds = true -> float_body (repr_layout ds decpt) = true.
Proof.
  intros Hds.
  pose proof (digits1_all_digits _ Hds) as Hall.
  pose proof (digits1_length _ Hds) as Hlen.
  unfold repr_layout.
  destruct ((-4 <? decpt) && (decpt <=? 16))%Z.
  - destruct (Z.leb_spec decpt 0); [ | destruct (Z.ltb_spec decpt (Z.of_nat (String.length ds))) ].
    + change ("0." ++ ?x) with ("0" ++ String "." x).
      apply float_body_positional, decimal_intro; [ reflexivity | ].
      apply digits1_app_r; [ apply zeros_all_digits | assumption ].
    + change ("." ++ ?x) with (String "." x).
      apply float_body_positional, decimal_intro.
      * apply digits1_of_length; [ now apply substring_all_digits | ].
        rewrite substring_length. lia.
      * apply digits1_of_length; [ now apply substring_all_digits | ].
        rewrite substring_length. lia.
    + rewrite <- append_assoc. change ".0" with (String "." "0").
      apply float_body_positional, decimal_intro; [ | reflexivity ].
      apply digits1_app_l; [ assumption | apply zeros_all_digits ].
  - rewrite <- append_assoc.
    change ("e" ++ ?x) with (String "e" x).
    assert (Hmant : is_decimal
              (substring 0 1 ds ++
               (if (1 <? Z.of_nat (String.length ds))%Z
                then "." ++ substring 1 (Z.to_nat (Z.of_nat (String.length ds) - 1)) ds
                else "")) = true).
    { assert (H1 : digits1 (substring 0 1 ds) = true).
      { apply digits1_of_length; [ now apply substring_all_digits | ].
        rewrite substring_length. lia. }
      destruct (Z.ltb_spec 1 (Z.of_nat (String.length ds))).
      - change ("." ++ ?x) with (String "." x).
        apply decimal_intro; [ assumption | ].
        apply digits1_of_length; [ now apply substring_all_digits | ].
        rewrite substring_length. lia.
      - rewrite append_empty_r. now apply decimal_whole. }
    assert (Hexp : digits1 ((if (Z.abs (decpt - 1) <? 10)%Z then "0" else "") ++
                            decimal_int (Z.abs (decpt - 1))) = true).
    { apply digits1_app_r; [ now destruct (Z.abs (decpt - 1) <? 10)%Z | ].
      apply decimal_int_digits1. lia. }
    destruct (decpt - 1 <? 0)%Z.
    + exact (float_body_exponent _ true _ Hmant Hexp).
    + exact (float_body_exponent _ false _ Hmant Hexp).
Qed.

Lemma candidate_nonneg (i : rounding_interval) (p c : Z) :
  0 <= ri_nv i -> 0 <= ri_d i -> candidate i p = Some c -> 0 <= c.
Proof.
  intros Hv Hd. unfold candidate.
  assert (0 <= 10 ^ Z.max 0 (- p))%Z by (apply Z.pow_nonneg; lia).
  assert (0 <= 10 ^ Z.max 0 p)%Z by (apply Z.pow_nonneg; lia).
  assert (Hq : (0 <= ri_nv i * 10 ^ Z.max 0 (- p) / (ri_d i * 10 ^ Z.max 0 p))%Z)
    by (apply Z_div_nonneg_nonneg; nia).
  destruct (inside i _ p), (inside i _ p); intros E; inversion E; subst; try lia.
  destruct (_ ?= _)%Z; [ destruct (Z.even _) | | ]; lia.
Qed.

Lemma shortest_from_nonneg (fuel : nat) (i : rounding_interval) : forall k n,
  0 <= ri_nv i -> 0 <= ri_d i -> 0 <= fst (shortest_from fuel i k n).
Proof.
  induction fuel as [ | fuel IH]; intros k n Hv Hd; cbn [shortest_from].
  - cbn [fst].
    assert (0 <= 10 ^ Z.max 0 (- (k - n + 1)))%Z by (apply Z.pow_nonneg; lia).
    assert (0 <= 10 ^ Z.max 0 (k - n + 1))%Z by (apply Z.pow_nonneg; lia).
    apply Z_div_nonneg_nonneg; nia.
  - destruct (candidate i (k - n + 1)) as [c | ] eqn:E.
    + cbn [fst]. eapply candidate_nonneg; eassumption.
    + now apply IH.
Qed.

Lemma shortest_nonneg (m : positive) (e : Z) : 0 <= fst (shortest m e).
Proof.
  unfold shortest. apply shortest_from_nonneg; unfold interval_of; cbn [ri_nv ri_d].
  - assert (0 <= 2 ^ Z.max 0 (e - 2))%Z by (apply Z.pow_nonneg; lia). nia.
  - apply Z.pow_nonneg; lia.
Qed.

Lemma strip_zeros_nonneg (fuel : nat) : forall c p,
  0 <= c -> 0 <= fst (strip_zeros fuel c p).
Proof.
  induction fuel as [ | fuel IH]; intros c p Hc; cbn [strip_zeros]; [ exact Hc | ].
  destruct ((c mod 10 =? 0) && (0 <? c))%Z; [ | exact Hc ].
  apply IH. apply Z.div_pos; lia.
Qed.

Lemma str_float_literal (x : float) : is_float_literal (str_float x) = true.
Proof.
  unfold str_float.
  destruct (Prim2SF x) as [s | s | | s m e].
  - now destruct s.
  - now destruct s.
  - reflexivity.
  - pose proof (shortest_nonneg m e) as Hc0.
    destruct (shortest m e) as [c0 p0]. cbn [fst] in Hc0.
    pose proof (strip_zeros_nonneg 400 c0 p0 Hc0) as Hc.
    destruct (strip_zeros 400 c0 p0) as [c p]. cbn [fst] in Hc.
    apply (signed_sign float_body).
    apply repr_layout_body. now apply decimal_int_digits1.
Qed.

End FloatLiteral.

(** ** The terminator frame *)

Section Frame.

Local Open Scope string_scope.

Lemma is_field_intro (key : string) (ok : string -> bool) (v : string) :
  occurs "=" key = false -> is_field key ok (key ++ String "=" v) = ok v.
Proof.
  intros Hk. unfold is_field. now rewrite split_at_app, String.eqb_refl.
Qed.

Lemma field_no_comma (key v : string) :
  occurs "," key = false -> occurs "," v = false ->
  negb (occurs "," (key ++ String "=" v)) = true.
Proof.
  intros Hk Hv. rewrite occurs_app. cbn [occurs]. now rewrite Hk, Hv.
Qed.

Lemma str_int_within (n : Z) :
  Z.abs n < 10 ^ int_max_str_digits -> str_int n = Ok (decimal_int n).
Proof.
  intros H. unfold str_int.
  destruct (Z.leb_spec (10 ^ int_max_str_digits) (Z.abs n)) as [H' | _];
    [ | reflexivity ].
  exfalso. exact (proj1 (Z.lt_nge _ _) H H').
Qed.

(** The counts of the samples are far below the limit. *)
Lemma within_small (n : Z) :
  Z.abs n < 10 ^ 19 -> Z.abs n < 10 ^ int_max_str_digits.
Proof.
  intros H. apply (Z.lt_le_trans _ _ _ H).
  apply Z.pow_le_mono_r; [ reflexivity | discriminate ].
Qed.

Lemma str_int_beyond (n : Z) :
  10 ^ int_max_str_digits <= Z.abs n -> str_int n = Raise ValueError.
Proof.
  intros H. unfold str_int.
  destruct (Z.leb_spec (10 ^ int_max_str_digits) (Z.abs n)) as [_ | H'];
    [ reflexivity | ].
  exfalso. exact (proj1 (Z.lt_nge _ _) H' H).
Qed.

Lemma get_end_token_string_fields (usage : Provider.UsageRecord)
    (metrics : Provider.MetricsRecord) :
  Z.abs (Provider.input_tokens usage) < 10 ^ int_max_str_digits ->
  Z.abs (Provider.output_tokens usage) < 10 ^ int_max_str_digits ->
  Provider.get_end_token_string usage metrics =
  Ok (join_commas
    [Provider.END_TOKEN;
     "input_tokens" ++ String "=" (decimal_int (Provider.input_tokens usage));
     "output_tokens" ++ String "=" (decimal_int (Provider.output_tokens usage));
     "cost" ++ String "=" (str_float (Provider.cost usage));
     "latency" ++ String "=" (format_f 5 (Provider.latency metrics));
     "time_to_first_token" ++ String "=" (format_f 5 (Provider.time_to_first_token metrics));
     "inter_token_latency" ++ String "=" (format_f 5 (Provider.inter_token_latency metrics));
     "tokens_per_second" ++ String "=" (format_f 2 (Provider.tokens_per_second metrics))]).
Proof.
  intros Hin Hout. unfold Provider.get_end_token_string.
  rewrite (str_int_within _ Hin), (str_int_within _ Hout).
  cbn [bind join_commas]. rewrite !append_assoc. reflexivity.
Qed.

Lemma get_end_token_string_beyond (usage : Provider.UsageRecord)
    (metrics : Provider.MetricsRecord) :
  10 ^ int_max_str_digits <= Z.abs (Provider.input_tokens usage) \/
  10 ^ int_max_str_digits <= Z.abs (Provider.output_tokens usage) ->
  Provider.get_end_token_string usage metrics = Raise ValueError.
Proof.
  intros H. unfold Provider.get_end_token_string, str_int.
  destruct (Z.leb_spec (10 ^ int_max_str_digits) (Z.abs (Provider.input_tokens usage)))
    as [_ | Hin]; [ reflexivity | ].
  cbn [bind].
  destruct (Z.leb_spec (10 ^ int_max_str_digits) (Z.abs (Provider.output_tokens usage)))
    as [_ | Hout]; [ reflexivity | ].
  exfalso. destruct H as [H | H].
  - exact (proj1 (Z.lt_nge _ _) Hin H).
  - exact (proj1 (Z.lt_nge _ _) Hout H).
Qed.

(** C5 (as amended). For every usage record whose two token counts have
    at most [int_max_str_digits] decimal digits and every metrics record
    whose four values are finite, [get_end_token_string] returns one frame
    of the shape
    [<END_TOKEN>,input_tokens=<int>,output_tokens=<int>,cost=<float>,]
    [latency=<5 decimals>,time_to_first_token=<5 decimals>,]
    [inter_token_latency=<5 decimals>,tokens_per_second=<2 decimals>]. *)
Theorem end_token_frame_shape (usage : Provider.UsageRecord)
    (metrics : Provider.MetricsRecord) :
  Z.abs (Provider.input_tokens usage) < 10 ^ int_max_str_digits ->
  Z.abs (Provider.output_tokens usage) < 10 ^ int_max_str_digits ->
  is_finite (Provider.latency metrics) = true ->
  is_finite (Provider.time_to_first_token metrics) = true ->
  is_finite (Provider.inter_token_latency metrics) = true ->
  is_finite (Provider.tokens_per_second metrics) = true ->
  exists frame,
    Provider.get_end_token_string usage metrics = Ok frame /\
    is_end_token_frame Provider.END_TOKEN frame = true.
Proof.
  intros Hin Hout Hl Ht Hi Hs.
  pose proof (decimal_int_literal (Provider.input_tokens usage)) as L1.
  pose proof (decimal_int_literal (Provider.output_tokens usage)) as L2.
  pose proof (str_float_literal (Provider.cost usage)) as L3.
  pose proof (format_f_literal 5 _ ltac:(discriminate) Hl) as L4.
  pose proof (format_f_literal 5 _ ltac:(discriminate) Ht) as L5.
  pose proof (format_f_literal 5 _ ltac:(discriminate) Hi) as L6.
  pose proof (format_f_literal 2 _ ltac:(discriminate) Hs) as L7.
  rewrite (get_end_token_string_fields usage metrics Hin Hout).
  eexists. split; [ reflexivity | ].
  unfold is_end_token_frame.
  rewrite split_join_commas.
  - rewrite !is_field_intro by reflexivity.
    rewrite String.eqb_refl, L1, L2, L3, L4, L5, L6, L7. reflexivity.
  - discriminate.
  - cbn [forallb].
    rewrite !field_no_comma; try reflexivity;
      first [ now apply is_int_literal_no_comma
            | now apply is_float_literal_no_comma
            | now apply (is_fixed_literal_no_comma 5)
            | now apply (is_fixed_literal_no_comma 2) ].
Qed.

End Frame.

Ltac digits_small := apply within_small; vm_compute; reflexivity.

Lemma end_token_frame_shape_witness :
  exists frame,
    Provider.get_end_token_string sample_usage (sample_metrics 2) = Ok frame /\
    is_end_token_frame Provider.END_TOKEN frame = true.
Proof.
  apply (end_token_frame_shape sample_usage (sample_metrics 2));
    first [ digits_small | reflexivity ].
Defined.

Example end_token_frame_sample :
  Provider.get_end_token_string sample_usage (sample_metrics 2) =
  Ok "<END_TOKEN>,input_tokens=3,output_tokens=7,cost=0.000244140625,latency=2.00000,time_to_first_token=0.50000,inter_token_latency=0.25000,tokens_per_second=3.50".
Proof.
  rewrite get_end_token_string_fields by digits_small.
  vm_compute. reflexivity.
Qed.

(** C5, the claim as stated fails: an infinite latency is printed without
    decimals, and the frame has not the shape; and for a token count of
    more than [int_max_str_digits] digits no frame is produced at all. *)
Lemma end_token_frame_infinite_latency :
  (Provider.get_end_token_string sample_usage (sample_metrics infinity) =
   Ok "<END_TOKEN>,input_tokens=3,output_tokens=7,cost=0.000244140625,latency=inf,time_to_first_token=0.50000,inter_token_latency=0.25000,tokens_per_second=3.50" /\
   is_end_token_frame Provider.END_TOKEN
     "<END_TOKEN>,input_tokens=3,output_tokens=7,cost=0.000244140625,latency=inf,time_to_first_token=0.50000,inter_token_latency=0.25000,tokens_per_second=3.50" = false) /\
  Provider.get_end_token_string
    {| Provider.input_tokens := 10 ^ 4300;
       Provider.output_tokens := 7;
       Provider.total_tokens := 10 ^ 4300 + 7;
       Provider.cost := 0.000244140625 |} (sample_metrics 2) = Raise ValueError.
Proof.
  split; [ split | ].
  - rewrite get_end_token_string_fields by digits_small.
    vm_compute. reflexivity.
  - vm_compute. reflexivity.
  - apply get_end_token_string_beyond. left.
    change (10 ^ int_max_str_digits <= Z.abs (10 ^ int_max_str_digits)).
    rewrite Z.abs_eq; [ apply Z.le_refl | apply Z.pow_nonneg; discriminate ].
Qed.

Lemma generate_response_parameters_witness :
  fst (Provider.generate_response (Provider.init acme_config) (acme_request "acme-small")
         "Hi" sample_usage (sample_metrics 2) quiet_world) =
  Raise AttributeError.
Proof.
  apply (generate_response_parameters (Provider.init acme_config)
           (acme_request "acme-small") "Hi" sample_usage (sample_metrics 2) quiet_world).
  reflexivity.
Defined.

(** ** Model listing *)

Section Listing.

Import Engine.
Local Open Scope list_scope.

Lemma set_fresh {V : Type} (k : string) (v : V) (d : Dict.t V) :
  ~ In k (Dict.keys d) -> Dict.set k v d = d ++ [(k, v)].
Proof.
  induction d as [ | [k' v'] d IH]; simpl; intros H; [ reflexivity | ].
  destruct (String.eqb_spec k' k) as [-> | Hne].
  - exfalso. apply H. now left.
  - rewrite IH; [ reflexivity | ]. intros Hin. apply H. now right.
Qed.

Lemma unfiltered (provider : option string) (name : string) :
  truthy_str provider = false -> filtered_out provider name = false.
Proof. intros H. unfold filtered_out. destruct provider; [ now rewrite H | reflexivity ]. Qed.

Lemma fold_unfiltered (provider : option string) (ps : Dict.t ProviderConfig) :
  truthy_str provider = false -> NoDup (Dict.keys ps) ->
  forall acc, (forall k, In k (Dict.keys ps) -> ~ In k (Dict.keys acc)) ->
  fold_left (get_models_step provider) ps acc = acc ++ models_listing ps.
Proof.
  intros Hp. induction ps as [ | [n pc] ps IH]; intros Hnd acc Hfresh.
  - simpl. now rewrite app_nil_r.
  - simpl in Hnd. inversion Hnd as [ | ? ? Hn Hnd']; subst.
    cbn [fold_left get_models_step models_listing flat_map fst snd].
    rewrite (unfiltered _ _ Hp).
    destruct (truthy_models (models pc)).
    + rewrite set_fresh by (apply Hfresh; now left).
      rewrite IH; [ now rewrite <- app_assoc | assumption | ].
      intros k Hk. unfold Dict.keys. rewrite map_app, in_app_iff. simpl.
      intros [Hin | [-> | []]]; [ | contradiction ].
      apply (Hfresh k); [ now right | exact Hin ].
    + rewrite IH; [ reflexivity | assumption | ].
      intros k Hk. apply Hfresh. now right.
Qed.

Lemma fold_all_filtered (p : string) (ps : Dict.t ProviderConfig) :
  String.eqb p "" = false -> ~ In p (Dict.keys ps) ->
  forall acc, fold_left (get_models_step (Some p)) ps acc = acc.
Proof.
  intros Hp. induction ps as [ | [n pc] ps IH]; intros Hnot acc; [ reflexivity | ].
  cbn [fold_left get_models_step filtered_out truthy_str].
  rewrite Hp. cbn [negb andb].
  destruct (String.eqb_spec n p) as [-> | Hne].
  - exfalso. apply Hnot. now left.
  - cbn [negb]. apply IH. intros Hin. apply Hnot. now right.
Qed.

Lemma fold_filtered (p : string) (pc : ProviderConfig) (ps : Dict.t ProviderConfig) :
  String.eqb p "" = false -> NoDup (Dict.keys ps) ->
  Dict.get p ps = Some pc -> truthy_models (models pc) = true ->
  fold_left (get_models_step (Some p)) ps [] = [(p, listing_entry pc)].
Proof.
  intros Hp. induction ps as [ | [n c] ps IH]; intros Hnd Hget Hm; [ discriminate | ].
  simpl in Hnd. inversion Hnd as [ | ? ? Hn Hnd']; subst.
  cbn [fold_left get_models_step filtered_out truthy_str].
  rewrite Hp. cbn [negb andb].
  cbn [Dict.get] in Hget.
  destruct (String.eqb_spec n p) as [-> | Hne].
  - inversion Hget; subst c. cbn [negb]. rewrite Hm. cbn [Dict.set].
    now apply fold_all_filtered.
  - cbn [negb]. now apply IH.
Qed.

(** C9 (as amended). On a configuration whose providers are a dict,
    [get_models] with no filter (or an empty one) returns the mapping from
    each provider that has models to its display name and the names of its
    models; with a filter that names a provider that has models it returns
    that provider's entry itself, name and model names, not a mapping. *)
Theorem get_models_spec (config : EngineConfig) :
  Dict.wf (providers config) ->
  (forall provider, truthy_str provider = false ->
     get_models config provider = Ok (AllModels (models_listing (providers config)))) /\
  (forall p pc, p <> "" ->
     Dict.get p (providers config) = Some pc ->
     truthy_models (models pc) = true ->
     get_models config (Some p) = Ok (ProviderModels (listing_entry pc))).
Proof.
  intros Hwf. split.
  - intros provider Hp. unfold get_models, Dict.items, Dict.empty.
    rewrite (fold_unfiltered provider _ Hp Hwf) by (intros k _ []).
    cbn [app]. destruct provider; [ now rewrite Hp | reflexivity ].
  - intros p pc Hp Hget Hm. apply String.eqb_neq in Hp.
    unfold get_models, Dict.items, Dict.empty.
    rewrite (fold_filtered p pc _ Hp Hwf Hget Hm).
    cbn [truthy_str]. rewrite Hp. cbn [negb].
    unfold Dict.subscript. cbn [Dict.get]. now rewrite String.eqb_refl.
Qed.

End Listing.

Lemma acme_engine_wf : Dict.wf (Engine.providers acme_engine).
Proof.
  unfold Dict.wf. cbn. repeat constructor; cbn; intuition discriminate.
Qed.

Lemma get_models_spec_witness :
  Engine.get_models acme_engine None =
    Ok (Engine.AllModels
          [("acme", {| Engine.entry_name := "Acme"; Engine.entry_models := ["acme-small"] |})]) /\
  Engine.get_models acme_engine (Some "acme") =
    Ok (Engine.ProviderModels
          {| Engine.entry_name := "Acme"; Engine.entry_models := ["acme-small"] |}).
Proof.
  destruct (get_models_spec acme_engine acme_engine_wf) as [H1 H2].
  split.
  - exact (H1 None eq_refl).
  - refine (H2 "acme" _ _ eq_refl eq_refl); discriminate.
Defined.

(** C9, the claim as stated fails: with a filter the result is no mapping
    from provider to entry. For a provider that has models it is the entry
    itself; for one that has none, and for a name that is not configured,
    the lookup of the filter raises [KeyError]. *)
Lemma get_models_filtered_is_no_mapping :
  Engine.get_models acme_engine (Some "acme") =
    Ok (Engine.ProviderModels
          {| Engine.entry_name := "Acme"; Engine.entry_models := ["acme-small"] |}) /\
  Engine.get_models acme_engine (Some "idle") = Raise (KeyError "idle") /\
  Engine.get_models acme_engine (Some "nowhere") = Raise (KeyError "nowhere") /\
  forall p d, In p ["acme"; "idle"; "nowhere"] ->
    Engine.get_models acme_engine (Some p) <> Ok (Engine.AllModels d).
Proof.
  repeat split.
  intros p d [<- | [<- | [<- | []]]]; discriminate.
Qed.

(** * Further properties of the engine *)

(** ** Lookups in a dict *)

Section DictFacts.

Context {V : Type}.
Local Open Scope list_scope.

Lemma get_In (k : string) (d : Dict.t V) (v : V) :
  Dict.get k d = Some v -> In (k, v) d.
Proof.
  induction d as [ | [k' v'] d IH]; cbn [Dict.get]; [ discriminate | ].
  destruct (String.eqb_spec k' k) as [-> | Hne].
  - intros [= ->]. now left.
  - intros H. right. now apply IH.
Qed.

Lemma get_None_keys (k : string) (d : Dict.t V) :
  Dict.get k d = None <-> ~ In k (Dict.keys d).
Proof.
  induction d as [ | [k' v'] d IH]; cbn [Dict.get Dict.keys map fst In].
  - tauto.
  - destruct (String.eqb_spec k' k) as [-> | Hne].
    + split; [ discriminate | intros H; exfalso; apply H; now left ].
    + rewrite IH. unfold Dict.keys. tauto.
Qed.


End DictFacts.

(** ** Routes *)

Section Routes.

Import Engine App.
Local Open Scope list_scope.










End Routes.

(** ** The listing of models, filtered and not *)

Section ListingFacts.

Import Engine.
Local Open Scope list_scope.

Lemma get_models_listing (ps : Dict.t ProviderConfig) (p : string) :
  Dict.wf ps ->
  Dict.get p (models_listing ps) =
  match Dict.get p ps with
  | Some pc => if truthy_models (models pc) then Some (listing_entry pc) else None
  | None => None
  end.
Proof.
  unfold Dict.wf.
  induction ps as [ | [n pc] ps IH]; intros Hnd; [ reflexivity | ].
  cbn [Dict.keys map fst] in Hnd. inversion Hnd as [ | ? ? Hn Hnd']; subst.
  cbn [models_listing flat_map fst snd Dict.get].
  destruct (String.eqb_spec n p) as [-> | Hne].
  - destruct (truthy_models (models pc)).
    + cbn [app Dict.get]. now rewrite String.eqb_refl.
    + cbn [app]. fold (models_listing ps). rewrite (IH Hnd').
      apply get_None_keys in Hn. now rewrite Hn.
  - destruct (truthy_models (models pc)).
    + cbn [app Dict.get]. apply String.eqb_neq in Hne. rewrite Hne. now apply IH.
    + cbn [app]. now apply IH.
Qed.

Lemma fold_filtered_gen (p : string) (ps : Dict.t ProviderConfig) :
  String.eqb p "" = false -> Dict.wf ps ->
  fold_left (get_models_step (Some p)) ps [] =
  match Dict.get p ps with
  | Some pc => if truthy_models (models pc) then [(p, listing_entry pc)] else []
  | None => []
  end.
Proof.
  intros Hp. unfold Dict.wf.
  induction ps as [ | [n c] ps IH]; intros Hnd; [ reflexivity | ].
  cbn [Dict.keys map fst] in Hnd. inversion Hnd as [ | ? ? Hn Hnd']; subst.
  cbn [fold_left get_models_step filtered_out truthy_str Dict.get].
  rewrite Hp. cbn [negb andb].
  destruct (String.eqb_spec n p) as [-> | Hne]; cbn [negb].
  - destruct (truthy_models (models c)); cbn [Dict.set];
      now rewrite (fold_all_filtered p ps Hp Hn).
  - now apply IH.
Qed.

(** X2. With a filter, [get_models] answers as a lookup of the filter in the
    listing it gives without one: the entry stored there, and [KeyError] on
    the filter when the listing has no such provider. *)
Theorem get_models_filter_is_lookup (config : EngineConfig) (p : string) :
  Dict.wf (providers config) -> p <> "" ->
  get_models config (Some p) =
  (e <- Dict.subscript (models_listing (providers config)) p ;; Ok (ProviderModels e)).
Proof.
  intros Hwf Hp. apply String.eqb_neq in Hp.
  unfold get_models, Dict.items, Dict.empty, Dict.subscript.
  cbn [truthy_str]. rewrite Hp. cbn [negb].
  rewrite (fold_filtered_gen p _ Hp Hwf), (get_models_listing _ p Hwf).
  destruct (Dict.get p (providers config)) as [pc | ]; [ | reflexivity ].
  destruct (truthy_models (models pc)); [ | reflexivity ].
  cbn [Dict.get]. now rewrite String.eqb_refl.
Qed.

(** X3. With a filter, [get_models] raises [KeyError] on the filter exactly
    when the configuration has no provider of that name with a non-empty
    table of models; in every other case it returns. *)
Theorem get_models_key_error (config : EngineConfig) (p : string) :
  Dict.wf (providers config) -> p <> "" ->
  (get_models config (Some p) = Raise (KeyError p) <->
   forall pc, Dict.get p (providers config) = Some pc ->
              truthy_models (models pc) = false) /\
  (returns (get_models config (Some p)) = false ->
   get_models config (Some p) = Raise (KeyError p)).
Proof.
  intros Hwf Hp. apply String.eqb_neq in Hp.
  unfold get_models, Dict.items, Dict.empty, Dict.subscript.
  cbn [truthy_str]. rewrite Hp. cbn [negb].
  rewrite (fold_filtered_gen p _ Hp Hwf).
  destruct (Dict.get p (providers config)) as [pc | ].
  - destruct (truthy_models (models pc)) eqn:Hm.
    + cbn [Dict.get]. rewrite String.eqb_refl. cbn [bind returns]. split.
      * split; [ discriminate | ]. intros H. specialize (H pc eq_refl). congruence.
      * discriminate.
    + cbn [Dict.get bind]. split; [ | reflexivity ].
      split; [ | reflexivity ]. intros _ pc' [= <-]. exact Hm.
  - cbn [Dict.get bind]. split; [ | reflexivity ].
    split; [ discriminate | reflexivity ].
Qed.

Lemma models_listing_keys (ps : Dict.t ProviderConfig) (k : string) :
  In k (Dict.keys (models_listing ps)) -> In k (Dict.keys ps).
Proof.
  induction ps as [ | [n pc] ps IH]; cbn [models_listing flat_map fst snd]; [ trivial | ].
  fold (models_listing ps).
  destruct (truthy_models (models pc)); cbn [app Dict.keys map fst In];
    unfold Dict.keys in *; intuition.
Qed.

Lemma models_listing_wf (ps : Dict.t ProviderConfig) :
  Dict.wf ps -> Dict.wf (models_listing ps).
Proof.
  unfold Dict.wf.
  induction ps as [ | [n pc] ps IH]; intros Hnd; [ constructor | ].
  cbn [Dict.keys map fst] in Hnd. inversion Hnd as [ | ? ? Hn Hnd']; subst.
  cbn [models_listing flat_map fst snd]. fold (models_listing ps).
  destruct (truthy_models (models pc)); cbn [app]; [ | now apply IH ].
  cbn [Dict.keys map fst]. constructor; [ | now apply IH ].
  intros Hin. apply Hn. now apply models_listing_keys.
Qed.

Lemma truthy_models_names (m : option (Dict.t ModelConfig)) :
  truthy_models m = true -> model_names m <> [].
Proof.
  destruct m as [[ | [k v] d] | ]; cbn; discriminate.
Qed.

(** X4. Without a filter, [get_models] returns a dict in which every
    provider is a configured one, listed by [get_providers], has its own
    display name and the names of its models in their configured order, and
    has at least one model; a provider without models is not in it. *)
Theorem get_models_unfiltered_entries (config : EngineConfig)
    (all_models : Dict.t ModelsEntry) :
  Dict.wf (providers config) ->
  get_models config None = Ok (AllModels all_models) ->
  Dict.wf all_models /\
  (forall p e, Dict.get p all_models = Some e ->
     In p (get_providers config) /\
     entry_models e <> [] /\
     exists pc, Dict.get p (providers config) = Some pc /\
                entry_name e = name pc /\
                entry_models e = model_names (models pc)) /\
  (forall p pc, Dict.get p (providers config) = Some pc ->
     truthy_models (models pc) = false -> Dict.get p all_models = None).
Proof.
  intros Hwf H. unfold get_models, Dict.items, Dict.empty in H.
  rewrite (fold_unfiltered None _ eq_refl Hwf) in H by (intros k _ []).
  cbn [app] in H. inversion H; subst all_models. clear H.
  split; [ now apply models_listing_wf | split ].
  - intros p e He. rewrite (get_models_listing _ p Hwf) in He.
    destruct (Dict.get p (providers config)) as [pc | ] eqn:Hget; [ | discriminate ].
    destruct (truthy_models (models pc)) eqn:Hm; [ | discriminate ].
    inversion He; subst e. cbn [listing_entry entry_models entry_name].
    split; [ | split ].
    + unfold get_providers. apply get_In in Hget.
      change p with (fst (p, pc)). unfold Dict.keys. now apply in_map.
    + now apply truthy_models_names.
    + exists pc. repeat split.
  - intros p pc Hget Hm. rewrite (get_models_listing _ p Hwf), Hget. now rewrite Hm.
Qed.

End ListingFacts.

(** ** The CSV export *)

Section ExportFacts.

Import App.
Local Open Scope list_scope.

Variable V : Type.
Variable dumps : V -> string.

Lemma split_on_app (c : ascii) (a b : string) :
  occurs c a = false -> split_on c (a ++ String c b)%string = a :: split_on c b.
Proof.
  induction a as [ | x a IH]; cbn [append split_on occurs].
  - intros _. now rewrite Ascii.eqb_refl.
  - intros H. apply orb_false_elim in H as [Hx Ha].
    now rewrite Hx, (IH Ha).
Qed.

Lemma occurs_join (c : ascii) (sep : string) (xs : list string) :
  occurs c sep = false -> Forall (fun x => occurs c x = false) xs ->
  occurs c (join sep xs) = false.
Proof.
  intros Hsep. induction 1 as [ | x xs Hx Hxs IH]; [ reflexivity | ].
  destruct xs as [ | y ys]; [ exact Hx | ].
  change (join sep (x :: y :: ys)) with (x ++ sep ++ join sep (y :: ys))%string.
  now rewrite !occurs_app, Hx, Hsep, IH.
Qed.

Lemma fold_export_rows (data : list (Dict.t V)) : forall acc,
  fold_left (fun csv_content execution => (csv_content ++ export_row V dumps execution)%string)
    data acc =
  (acc ++ fold_right (fun execution rest => export_row V dumps execution ++ rest) "" data)%string.
Proof.
  induction data as [ | ex data IH]; intros acc; cbn [fold_left fold_right].
  - now rewrite append_empty_r.
  - now rewrite IH, append_assoc.
Qed.

Lemma split_rows (data : list (Dict.t V)) :
  Forall (fun ex => occurs "010" (row_text V dumps ex) = false) data ->
  split_on "010"
    (fold_right (fun execution rest => export_row V dumps execution ++ rest)%string "" data) =
  map (row_text V dumps) data ++ [""%string].
Proof.
  induction 1 as [ | ex data Hex Hdata IH]; [ reflexivity | ].
  cbn [fold_right map app]. unfold export_row at 1.
  rewrite append_assoc. change (newline ++ ?r)%string with (String "010" r).
  now rewrite split_on_app, IH.
Qed.

(** X5. [export] gives the empty text for an empty list. For a non-empty
    one the text read back line by line is the keys of the first execution
    joined by semicolons, then for each execution in order its values'
    JSON texts joined by semicolons, and nothing after the last newline;
    this for keys and JSON texts that hold no newline, as [json.dumps]
    gives them. *)
Theorem export_lines (first : Dict.t V) (rest : list (Dict.t V)) :
  Forall (fun k => occurs "010" k = false) (Dict.keys first) ->
  (forall execution v, In execution (first :: rest) ->
     In v (map snd (Dict.items execution)) -> occurs "010" (dumps v) = false) ->
  export V dumps [] = ""%string /\
  split_on "010" (export V dumps (first :: rest)) =
  join ";" (Dict.keys first) :: map (row_text V dumps) (first :: rest) ++ [""%string].
Proof.
  intros Hkeys Hvalues. split; [ reflexivity | ].
  unfold export. rewrite fold_export_rows, append_assoc.
  change (newline ++ ?r)%string with (String "010" r).
  rewrite split_on_app by (now apply occurs_join).
  f_equal. apply split_rows.
  apply Forall_forall. intros ex Hex. unfold row_text.
  apply occurs_join; [ reflexivity | ].
  apply Forall_forall. intros s Hs.
  apply in_map_iff in Hs as [v [<- Hv]]. now apply (Hvalues ex).
Qed.

End ExportFacts.

(** * Further properties of the provider *)

Section UsageFacts.

Variable encode : Provider.Tokenizer -> string -> result (list Z).

Lemma contains_get {V : Type} (k : string) (d : Dict.t V) :
  Dict.contains k d = true -> exists v, Dict.get k d = Some v.
Proof.
  unfold Dict.contains. destruct (Dict.get k d) as [v | ]; [ eauto | discriminate ].
Qed.

Lemma calculate_usage_returns (self : Provider.t) (input output model : string)
    (table : Dict.t ModelConfig) (mc : ModelConfig)
    (input_encoding output_encoding : list Z) :
  Provider.models (Provider.config self) = Some table ->
  Dict.get model table = Some mc ->
  encode (Provider.tokenizer self) input = Ok input_encoding ->
  encode (Provider.tokenizer self) output = Ok output_encoding ->
  sequence input_encoding ->
  sequence output_encoding ->
  returns (Provider.calculate_usage encode self input output model) = true.
Proof.
  intros Htable Hmc Ein Eout Hin Hout.
  unfold Provider.calculate_usage, Provider.lookup_model, Dict.subscript.
  rewrite Htable, Hmc. cbn [bind]. rewrite Ein. cbn [bind]. rewrite Eout. cbn [bind].
  unfold sequence, maxsize in Hin, Hout.
  rewrite !float_mul_int_len by (split; [ apply len_nonneg | lia ]).
  reflexivity.
Qed.

(** Past the lookup of the model, a failure of [calculate_usage] is the
    failure of the tokenizer on one of the two texts. *)
Lemma calculate_usage_raises (self : Provider.t) (input output model : string)
    (table : Dict.t ModelConfig) (mc : ModelConfig) (e : exn) :
  Provider.models (Provider.config self) = Some table ->
  Dict.get model table = Some mc ->
  (forall enc, encode (Provider.tokenizer self) input = Ok enc -> sequence enc) ->
  (forall enc, encode (Provider.tokenizer self) output = Ok enc -> sequence enc) ->
  Provider.calculate_usage encode self input output model = Raise e ->
  encode (Provider.tokenizer self) input = Raise e \/
  (returns (encode (Provider.tokenizer self) input) = true /\
   encode (Provider.tokenizer self) output = Raise e).
Proof.
  intros Htable Hmc Hin Hout.
  unfold Provider.calculate_usage, Provider.lookup_model, Dict.subscript.
  rewrite Htable, Hmc. cbn [bind].
  destruct (encode (Provider.tokenizer self) input) as [ein | e1];
    [ | cbn [bind]; intros [= ->]; now left ].
  destruct (encode (Provider.tokenizer self) output) as [eout | e2];
    [ | cbn [bind]; intros [= ->]; right; now split ].
  cbn [bind]. specialize (Hin ein eq_refl). specialize (Hout eout eq_refl).
  unfold sequence, maxsize in Hin, Hout.
  rewrite !float_mul_int_len by (split; [ apply len_nonneg | lia ]).
  discriminate.
Qed.

(** X6. A request that [chat] lets through can be accounted as far as the
    provider is concerned: when [chat] returns for a request,
    [calculate_usage] on the model of that request returns a record for
    any two texts the tokenizer encodes, and when it fails, the exception
    is the one the tokenizer raised on the input or on the output text
    (an encoding is a Python sequence). *)
Theorem chat_guards_calculate_usage (self : Provider.t)
    (request : Provider.ChatRequest) (w : Provider.World) (input output : string) :
  fst (Provider.chat self request w) = Ok tt ->
  (forall enc, encode (Provider.tokenizer self) input = Ok enc -> sequence enc) ->
  (forall enc, encode (Provider.tokenizer self) output = Ok enc -> sequence enc) ->
  (returns (encode (Provider.tokenizer self) input) = true ->
   returns (encode (Provider.tokenizer self) output) = true ->
   returns (Provider.calculate_usage encode self input output
              (Provider.model request)) = true) /\
  (forall e,
     Provider.calculate_usage encode self input output (Provider.model request) =
     Raise e ->
     encode (Provider.tokenizer self) input = Raise e \/
     encode (Provider.tokenizer self) output = Raise e).
Proof.
  unfold Provider.chat.
  destruct (Provider.models (Provider.config self)) as [table | ] eqn:Htable;
    [ | discriminate ].
  destruct (Dict.contains (Provider.model request) table) eqn:Hc; [ | discriminate ].
  intros _ Hin Hout. apply contains_get in Hc as [mc Hmc]. split.
  - destruct (encode (Provider.tokenizer self) input) as [ein | ] eqn:Ein;
      [ | discriminate ].
    destruct (encode (Provider.tokenizer self) output) as [eout | ] eqn:Eout;
      [ | discriminate ].
    intros _ _.
    apply (calculate_usage_returns self input output _ table mc ein eout);
      auto.
  - intros e He.
    destruct (calculate_usage_raises self input output _ table mc e
                Htable Hmc Hin Hout He) as [H | [_ H]]; auto.
Qed.

(** X7. The failures of [calculate_usage], in the order the code reaches
    them: [TypeError] when the configuration has no table of models,
    [KeyError] on the model when the table lacks it, then the exception of
    the tokenizer on the input text, then its exception on the output
    text. It returns exactly when the model is in the table and the
    tokenizer encodes both texts. *)
Theorem calculate_usage_failures (self : Provider.t) (input output model : string) :
  (forall enc, encode (Provider.tokenizer self) input = Ok enc -> sequence enc) ->
  (forall enc, encode (Provider.tokenizer self) output = Ok enc -> sequence enc) ->
  (Provider.models (Provider.config self) = None ->
   Provider.calculate_usage encode self input output model = Raise TypeError) /\
  (forall table, Provider.models (Provider.config self) = Some table ->
     Dict.contains model table = false ->
     Provider.calculate_usage encode self input output model = Raise (KeyError model)) /\
  (forall table e, Provider.models (Provider.config self) = Some table ->
     Dict.contains model table = true ->
     encode (Provider.tokenizer self) input = Raise e ->
     Provider.calculate_usage encode self input output model = Raise e) /\
  (forall table e, Provider.models (Provider.config self) = Some table ->
     Dict.contains model table = true ->
     returns (encode (Provider.tokenizer self) input) = true ->
     encode (Provider.tokenizer self) output = Raise e ->
     Provider.calculate_usage encode self input output model = Raise e) /\
  (returns (Provider.calculate_usage encode self input output model) = true <->
   exists table, Provider.models (Provider.config self) = Some table /\
                 Dict.contains model table = true /\
                 returns (encode (Provider.tokenizer self) input) = true /\
                 returns (encode (Provider.tokenizer self) output) = true).
Proof.
  intros Hin Hout. split; [ | split; [ | split; [ | split ] ] ].
  - intros Hnone. unfold Provider.calculate_usage, Provider.lookup_model.
    now rewrite Hnone.
  - intros table Htable Hc.
    unfold Provider.calculate_usage, Provider.lookup_model, Dict.subscript.
    rewrite Htable. unfold Dict.contains in Hc.
    destruct (Dict.get model table); [ discriminate | reflexivity ].
  - intros table e Htable Hc Ein. apply contains_get in Hc as [mc Hmc].
    unfold Provider.calculate_usage, Provider.lookup_model, Dict.subscript.
    rewrite Htable, Hmc. cbn [bind]. now rewrite Ein.
  - intros table e Htable Hc Ein Eout. apply contains_get in Hc as [mc Hmc].
    unfold Provider.calculate_usage, Provider.lookup_model, Dict.subscript.
    rewrite Htable, Hmc. cbn [bind].
    destruct (encode (Provider.tokenizer self) input); [ | discriminate ].
    cbn [bind]. now rewrite Eout.
  - split.
    + unfold Provider.calculate_usage, Provider.lookup_model, Dict.subscript, Dict.contains.
      destruct (Provider.models (Provider.config self)) as [table | ]; [ | discriminate ].
      destruct (Dict.get model table) eqn:Hg; [ | discriminate ].
      cbn [bind].
      destruct (encode (Provider.tokenizer self) input); [ | discriminate ].
      cbn [bind].
      destruct (encode (Provider.tokenizer self) output); [ | discriminate ].
      intros _. exists table. rewrite Hg. repeat split.
    + intros [table [Htable [Hc [Ein Eout]]]]. apply contains_get in Hc as [mc Hmc].
      destruct (encode (Provider.tokenizer self) input) as [ein | ] eqn:Ein';
        [ | discriminate ].
      destruct (encode (Provider.tokenizer self) output) as [eout | ] eqn:Eout';
        [ | discriminate ].
      apply (calculate_usage_returns self input output model table mc ein eout);
        auto.
Qed.

End UsageFacts.

(** ** Metrics *)

(** X8. For a tuple of gaps, [calculate_metrics] returns a record exactly
    when the tuple is not empty, the token count converts to a float and
    [end - start] is not zero; the record it returns then has that
    non-zero latency. The order of the two times is not checked. *)
Theorem calculate_metrics_returns (start_time end_time first_token_time : float)
    (token_times : list float) (token_count : Z) :
  sequence token_times ->
  (returns (Provider.calculate_metrics start_time end_time first_token_time
              token_times token_count) = true <->
   token_times <> [] /\
   returns (float_of_int token_count) = true /\
   (end_time - start_time =? 0)%float = false) /\
  (forall metrics,
     Provider.calculate_metrics start_time end_time first_token_time
       token_times token_count = Ok metrics ->
     Provider.latency metrics = (end_time - start_time)%float /\
     (Provider.latency metrics =? 0)%float = false /\
     Provider.time_to_first_token metrics = (first_token_time - start_time)%float).
Proof.
  intros Hseq.
  unfold Provider.calculate_metrics, int_truediv_float, float_truediv.
  destruct token_times as [ | t ts].
  - split; [ split; [ discriminate | intros [H _]; congruence ] | discriminate ].
  - rewrite mean_nonempty by (assumption || discriminate). cbn [bind].
    destruct (float_of_int token_count) as [count | e]; cbn [bind returns].
    + destruct (end_time - start_time =? 0)%float eqn:Hz; cbn [bind returns].
      * split; [ split; [ discriminate | intros (_ & _ & H); discriminate ] | discriminate ].
      * split; [ split; [ intros _; repeat split; discriminate | reflexivity ] | ].
        intros metrics [= <-]. cbn. now rewrite Hz.
    + split; [ split; [ discriminate | intros (_ & H & _); discriminate ] | discriminate ].
Qed.

(** ** Chat *)

(** X9. What [chat] does with a request depends on the model of the request
    alone: it returns exactly when the configuration has a table of models
    that holds it, fails with [TypeError] (none of the specification's
    errors) when there is no table at all, and in every case leaves the
    world as it was. *)
Theorem chat_outcomes (self : Provider.t) (request : Provider.ChatRequest)
    (w : Provider.World) :
  snd (Provider.chat self request w) = w /\
  (fst (Provider.chat self request w) = Ok tt <->
   exists table, Provider.models (Provider.config self) = Some table /\
                 Dict.contains (Provider.model request) table = true) /\
  (Provider.models (Provider.config self) = None ->
   fst (Provider.chat self request w) = Raise TypeError /\ taxonomy TypeError = None) /\
  (forall request', Provider.model request' = Provider.model request ->
   Provider.chat self request' w = Provider.chat self request w).
Proof.
  unfold Provider.chat.
  destruct (Provider.models (Provider.config self)) as [table | ].
  - destruct (Dict.contains (Provider.model request) table) eqn:Hc; cbn [negb].
    + repeat split; try discriminate.
      * intros _. now exists table.
      * intros request' ->. now rewrite Hc.
    + repeat split; try discriminate.
      * intros [t [[= <-] H]]. congruence.
      * intros request' ->. now rewrite Hc.
  - repeat split; try discriminate.
    intros [t [H _]]. discriminate.
Qed.

(** ** Signs in binary64 arithmetic *)

Section Signs.

Local Open Scope Z_scope.

Lemma Zdigits2_bound (m k : Z) : 0 <= m < 2 ^ k -> 0 <= k -> Zdigits2 m <= k.
Proof.
  intros [Hlo Hhi] Hk. destruct m as [ | p | p ]; cbn [Zdigits2]; [ lia | | lia ].
  pose proof (digits2_pos_bound p) as [Hd _].
  assert (H : 2 ^ (Zpos (digits2_pos p) - 1) < 2 ^ k) by lia.
  apply Z.pow_lt_mono_r_iff in H; lia.
Qed.

Lemma shr_fexp_bounds (m e : Z) (l : location) :
  0 <= m ->
  0 <= shr_m (fst (shr_fexp prec emax m e l)) <= m /\
  snd (shr_fexp prec emax m e l) = Z.max e (fexp prec emax (Zdigits2 m + e)).
Proof.
  intros Hm. unfold shr_fexp, shr.
  destruct (fexp prec emax (Zdigits2 m + e) - e) as [ | p | p ] eqn:Hn; cbn [fst snd];
    rewrite ?shr_record_of_loc_m; try lia.
  rewrite iter_pos_shr_m by (rewrite shr_record_of_loc_m; lia).
  rewrite shr_record_of_loc_m.
  assert (0 < 2 ^ Zpos p) by (apply Z.pow_pos_nonneg; lia).
  split; [ split; [ apply Z.div_pos; lia | apply Z.div_le_upper_bound; nia ] | lia ].
Qed.

Lemma round_nearest_even_bounds (m : Z) (l : location) :
  0 <= m -> 0 <= round_nearest_even m l <= m + 1.
Proof.
  intros Hm. destruct l as [ | [ | | ] ]; cbn [round_nearest_even]; try lia.
  destruct (Z.even m); lia.
Qed.

(** Rounding a magnitude keeps the sign, and gives no NaN. *)
Lemma binary_round_aux_sign (s : bool) (m e : Z) (l : location) :
  0 <= m ->
  match binary_round_aux prec emax s m e l with
  | S754_zero s' | S754_finite s' _ _ | S754_infinity s' => s' = s
  | S754_nan => False
  end.
Proof.
  intros Hm. unfold binary_round_aux.
  pose proof (shr_fexp_bounds m e l Hm) as [[H1 _] _].
  destruct (shr_fexp prec emax m e l) as [mrs' e']. cbn [fst] in H1.
  pose proof (round_nearest_even_bounds _ (loc_of_shr_record mrs') H1) as [H2 _].
  pose proof (shr_fexp_bounds _ e' loc_Exact H2) as [[H3 _] _].
  destruct (shr_fexp prec emax _ e' loc_Exact) as [mrs'' e'']. cbn [fst] in H3.
  destruct (shr_m mrs'') as [ | q | q ]; try lia; [ reflexivity | ].
  destruct (e'' <=? emax - prec); reflexivity.
Qed.

(** A magnitude below [2^k] at an exponent low enough rounds to a finite
    value. *)
Lemma binary_round_aux_finite (s : bool) (m e k : Z) (l : location) :
  0 <= m < 2 ^ k -> 0 <= k <= 1000 -> e + 2 * k <= 971 ->
  SFfinite (binary_round_aux prec emax s m e l) = true.
Proof.
  intros [Hm Hk2] [Hk Hk'] He. unfold binary_round_aux.
  pose proof (shr_fexp_bounds m e l Hm) as [[H1 H1'] E1].
  pose proof (Zdigits2_bound m k (conj Hm Hk2) Hk) as D1.
  destruct (shr_fexp prec emax m e l) as [mrs' e']. cbn [fst snd] in H1, H1', E1.
  pose proof (round_nearest_even_bounds _ (loc_of_shr_record mrs') H1) as [H2 H2'].
  assert (Hk3 : round_nearest_even (shr_m mrs') (loc_of_shr_record mrs') < 2 ^ (k + 1)).
  { rewrite Z.pow_add_r by lia. change (2 ^ 1) with 2. lia. }
  pose proof (Zdigits2_bound _ (k + 1) (conj H2 Hk3) ltac:(lia)) as D2.
  pose proof (shr_fexp_bounds _ e' loc_Exact H2) as [[H3 _] E2].
  destruct (shr_fexp prec emax _ e' loc_Exact) as [mrs'' e'']. cbn [fst snd] in H3, E2.
  destruct (shr_m mrs'') as [ | q | q ]; try lia; [ reflexivity | ].
  unfold fexp, SpecFloat.emin, prec, emax in *.
  destruct (Z.leb_spec e'' (1024 - 53)); [ reflexivity | lia ].
Qed.

Lemma shl_align_snd (m : positive) (e e' : Z) : snd (shl_align m e e') = Z.min e e'.
Proof. unfold shl_align. destruct (e' - e) eqn:H; cbn [snd]; lia. Qed.

Lemma shl_align_fst (m : positive) (e e' : Z) :
  Zpos (fst (shl_align m e e')) = Zpos m * 2 ^ (e - Z.min e e').
Proof.
  destruct (Z.le_ge_cases e' e).
  - rewrite Z.min_r by assumption. now apply shl_align_value.
  - rewrite Z.min_l by assumption. rewrite Z.sub_diag, Z.pow_0_r, Z.mul_1_r.
    unfold shl_align. destruct (e' - e) eqn:Hd; try reflexivity. lia.
Qed.

Lemma binary_normalize_nonneg (m e : Z) :
  0 <= m -> SFnonneg (binary_normalize prec emax m e false) = true.
Proof.
  intros Hm. destruct m as [ | p | p ]; [ reflexivity | | lia ].
  cbn [binary_normalize]. unfold binary_round.
  destruct (shl_align p e _) as [mz ez].
  pose proof (binary_round_aux_sign false (Zpos mz) ez loc_Exact ltac:(lia)) as H.
  destruct (binary_round_aux prec emax false (Zpos mz) ez loc_Exact);
    try contradiction; subst; reflexivity.
Qed.

(** The float of a machine integer is finite and not negative. *)
Lemma of_uint63_finite_nonneg (n : int) :
  SFfinite (Prim2SF (of_uint63 n)) = true /\ SFnonneg (Prim2SF (of_uint63 n)) = true.
Proof.
  rewrite of_uint63_spec.
  pose proof (to_Z_bounded n) as [Hlo Hhi]. change wB with (2 ^ 63) in Hhi.
  split; [ | now apply binary_normalize_nonneg ].
  destruct (to_Z n) as [ | p | p ]; [ reflexivity | | lia ].
  cbn [binary_normalize]. unfold binary_round.
  pose proof (shl_align_fst p 0 (fexp prec emax (Zpos (digits2_pos p) + 0))) as Hf.
  pose proof (shl_align_snd p 0 (fexp prec emax (Zpos (digits2_pos p) + 0))) as Hs.
  destruct (shl_align p 0 _) as [mz ez]. cbn [fst snd] in Hf, Hs.
  pose proof (Zdigits2_bound (Zpos p) 63 ltac:(lia) ltac:(lia)) as Hd. cbn [Zdigits2] in Hd.
  assert (He : -52 <= ez <= 0).
  { pose proof (Pos2Z.is_pos (digits2_pos p)).
    unfold fexp, SpecFloat.emin, prec, emax in Hs. lia. }
  apply (binary_round_aux_finite false (Zpos mz) ez 115); [ | lia | lia ].
  split; [ lia | ]. rewrite Hf.
  replace (0 - Z.min 0 (fexp prec emax (Zpos (digits2_pos p) + 0))) with (- ez) by lia.
  assert (2 ^ (- ez) <= 2 ^ 52) by (apply Z.pow_le_mono_r; lia).
  change (2 ^ 115) with (2 ^ 63 * 2 ^ 52).
  assert (0 < 2 ^ (- ez)) by (apply Z.pow_pos_nonneg; lia).
  nia.
Qed.

Lemma leb_zero_spec (x : float) : (0 <=? x)%float = SFnonneg (Prim2SF x).
Proof.
  rewrite FloatAxioms.leb_spec. change (Prim2SF 0%float) with (S754_zero false).
  destruct (Prim2SF x) as [ | [ | ] | | [ | ] ? ? ]; reflexivity.
Qed.

Lemma ltb_zero_spec (x : float) : (0 <? x)%float = SFpos (Prim2SF x).
Proof.
  rewrite FloatAxioms.ltb_spec. change (Prim2SF 0%float) with (S754_zero false).
  destruct (Prim2SF x) as [ | [ | ] | | [ | ] ? ? ]; reflexivity.
Qed.

Lemma is_finite_spec (x : float) : is_finite x = true -> SFfinite (Prim2SF x) = true.
Proof.
  intros H. apply is_finite_Prim2SF in H.
  destruct (Prim2SF x); (reflexivity || contradiction).
Qed.

Lemma SFmul_nonneg (x y : spec_float) :
  SFfinite x = true -> SFfinite y = true ->
  SFnonneg x = true -> SFnonneg y = true ->
  SFnonneg (SF64mul x y) = true.
Proof.
  destruct x as [sx | sx | | sx mx ex], y as [sy | sy | | sy my ey];
    try discriminate; intros _ _ Hx Hy; try reflexivity.
  destruct sx, sy; try discriminate.
  unfold SF64mul, SFmul. cbn [xorb].
  pose proof (binary_round_aux_sign false (Zpos (mx * my)) (ex + ey) loc_Exact ltac:(lia)) as H.
  destruct (binary_round_aux prec emax false _ _ _); try contradiction; subst; reflexivity.
Qed.

Lemma SFadd_nonneg (x y : spec_float) :
  SFnonneg x = true -> SFnonneg y = true -> SFnonneg (SF64add x y) = true.
Proof.
  destruct x as [[ | ] | [ | ] | | [ | ] mx ex], y as [[ | ] | [ | ] | | [ | ] my ey];
    intros Hx Hy; try discriminate Hx; try discriminate Hy; try reflexivity.
  unfold SF64add, SFadd. cbn [cond_Zopp].
  apply binary_normalize_nonneg. lia.
Qed.

Lemma SFnonneg_nonzero_pos (x : spec_float) :
  SFnonneg x = true -> SFnonzero x = true -> SFpos x = true.
Proof. destruct x as [ | [ | ] | | [ | ] ? ? ]; intros; (discriminate || reflexivity). Qed.

Lemma aligned_mantissas_lt mx ex my ey :
  bounded prec emax mx ex = true -> bounded prec emax my ey = true ->
  ex < ey \/ (ex = ey /\ (mx < my)%positive) ->
  Zpos (fst (shl_align mx ex (Z.min ey ex))) < Zpos (fst (shl_align my ey (Z.min ey ex))).
Proof.
  intros Bx By Hlt.
  apply canonical_digits in Bx as (Ex & Dx & Nx), By as (Ey & Dy & Ny).
  rewrite !shl_align_value by lia.
  pose proof (digits2_pos_bound mx) as [Lx Ux].
  pose proof (digits2_pos_bound my) as [Ly Uy].
  unfold prec in *.
  destruct Hlt as [Hlt | [-> Hm]].
  - rewrite Z.min_r by lia. rewrite Z.sub_diag, Z.pow_0_r, Z.mul_1_r.
    rewrite Ny in * by lia.
    assert (2 ^ 1 <= 2 ^ (ey - ex)) by (apply Z.pow_le_mono_r; lia).
    assert (Zpos mx < 2 ^ 53) by (eapply Z.lt_le_trans; [ apply Ux | apply Z.pow_le_mono_r; lia ]).
    change (2 ^ (53 - 1)) with 4503599627370496 in Ly.
    change (2 ^ 53) with 9007199254740992 in *. change (2 ^ 1) with 2 in *. nia.
  - rewrite Z.min_id, Z.sub_diag, Z.pow_0_r, !Z.mul_1_r. lia.
Qed.

Lemma SFsub_lt_pos (x y : spec_float) :
  valid_binary x = true -> valid_binary y = true ->
  SFltb x y = true -> SFpos (SF64sub y x) = true.
Proof.
  intros Vx Vy Hlt.
  apply SFnonneg_nonzero_pos; [ | now apply SFsub_lt_nonzero ].
  unfold SFltb in Hlt.
  destruct x as [[ | ] | [ | ] | | sx mx ex], y as [[ | ] | [ | ] | | sy my ey];
    cbn [SFcompare] in Hlt; try discriminate Hlt; try reflexivity;
    try (destruct sx; (discriminate Hlt || reflexivity));
    try (destruct sy; (discriminate Hlt || reflexivity)).
  unfold SF64sub, SFsub. cbn [valid_binary] in Vx, Vy.
  apply binary_normalize_nonneg.
  destruct sx, sy; cbn [cond_Zopp]; try discriminate Hlt.
  - (* both negative: [y] is the smaller magnitude *)
    assert (Hord : ey < ex \/ (ey = ex /\ (my < mx)%positive)).
    { destruct (Z.compare_spec ex ey) as [E | E | E]; try discriminate Hlt.
      - right. split; [ congruence | ].
        change (Pos.compare_cont Eq mx my) with (mx ?= my)%positive in Hlt.
        destruct (Pos.compare_spec mx my); try discriminate Hlt. assumption.
      - now left. }
    pose proof (aligned_mantissas_lt my ey mx ex Vy Vx Hord) as H.
    rewrite (Z.min_comm ex ey) in H. lia.
  - lia.
  - assert (Hord : ex < ey \/ (ex = ey /\ (mx < my)%positive)).
    { destruct (Z.compare_spec ex ey) as [E | E | E]; try discriminate Hlt.
      - right. split; [ assumption | ].
        change (Pos.compare_cont Eq mx my) with (mx ?= my)%positive in Hlt.
        destruct (Pos.compare_spec mx my); try discriminate Hlt. assumption.
      - now left. }
    pose proof (aligned_mantissas_lt mx ex my ey Vx Vy Hord) as H. lia.
Qed.

Lemma sub_lt_pos (x y : float) : (x <? y)%float = true -> (0 <? y - x)%float = true.
Proof.
  intros H. rewrite ltb_zero_spec, FloatAxioms.sub_spec.
  apply SFsub_lt_pos; [ apply Prim2SF_valid .. | ].
  now rewrite <- FloatAxioms.ltb_spec.
Qed.

Lemma div_eucl_quotient_nonneg (a b : Z) :
  0 <= a -> 0 < b -> 0 <= fst (Z.div_eucl a b).
Proof. intros Ha Hb. change (fst (Z.div_eucl a b)) with (a / b). now apply Z.div_pos. Qed.

Lemma SFdiv_nonneg (x y : spec_float) :
  SFfinite x = true -> SFnonneg x = true -> SFpos y = true ->
  SFnonneg (SF64div x y) = true.
Proof.
  destruct x as [[ | ] | [ | ] | | [ | ] mx ex], y as [[ | ] | [ | ] | | [ | ] my ey];
    intros Hf Hx Hy; try discriminate Hf; try discriminate Hx; try discriminate Hy;
    try reflexivity.
  unfold SF64div, SFdiv. cbn [xorb].
  unfold SFdiv_core_binary.
  set (m' := match _ with Z0 => Zpos mx | Zpos _ => Z.shiftl (Zpos mx) _ | Zneg _ => 0 end).
  assert (Hm' : 0 <= m').
  { subst m'. destruct (_ - _) eqn:E; try lia.
    apply Z.shiftl_nonneg. lia. }
  pose proof (div_eucl_quotient_nonneg m' (Zpos my) Hm' ltac:(lia)) as Hq.
  destruct (Z.div_eucl m' (Zpos my)) as [q r]. cbn [fst] in Hq.
  match goal with
  | |- SFnonneg (binary_round_aux _ _ _ ?mz ?ez ?lz) = true =>
      pose proof (binary_round_aux_sign false mz ez lz Hq) as H;
      destruct (binary_round_aux prec emax false mz ez lz);
      try contradiction; subst; reflexivity
  end.
Qed.

Lemma ltb_zero_r_spec (x : float) : (x <? 0)%float = SFneg (Prim2SF x).
Proof.
  rewrite FloatAxioms.ltb_spec. change (Prim2SF 0%float) with (S754_zero false).
  destruct (Prim2SF x) as [ | [ | ] | | [ | ] ? ? ]; reflexivity.
Qed.

Lemma binary_normalize_neg (m e : Z) :
  m < 0 -> SpecFloat.emin prec emax <= e ->
  SFneg (binary_normalize prec emax m e false) = true.
Proof.
  intros Hm He.
  pose proof (binary_normalize_nonzero m e false ltac:(lia) He) as Hnz.
  destruct m as [ | p | p ]; try lia.
  cbn [binary_normalize] in *. unfold binary_round in *.
  destruct (shl_align p e _) as [mz ez].
  pose proof (binary_round_aux_sign true (Zpos mz) ez loc_Exact ltac:(lia)) as H.
  destruct (binary_round_aux prec emax true (Zpos mz) ez loc_Exact);
    try contradiction; subst; (reflexivity || discriminate).
Qed.

Lemma SFsub_gt_neg (x y : spec_float) :
  valid_binary x = true -> valid_binary y = true ->
  SFltb y x = true -> SFneg (SF64sub y x) = true.
Proof.
  intros Vx Vy Hlt. unfold SFltb in Hlt.
  destruct x as [[ | ] | [ | ] | | sx mx ex], y as [[ | ] | [ | ] | | sy my ey];
    cbn [SFcompare] in Hlt; try discriminate Hlt; try reflexivity;
    try (destruct sx; (discriminate Hlt || reflexivity));
    try (destruct sy; (discriminate Hlt || reflexivity)).
  unfold SF64sub, SFsub. cbn [valid_binary] in Vx, Vy.
  apply binary_normalize_neg;
    [ | apply canonical_digits in Vx as (Ex & _), Vy as (Ey & _); lia ].
  destruct sy, sx; cbn [cond_Zopp]; try discriminate Hlt.
  - (* both negative: [y] is the larger magnitude *)
    assert (Hord : ex < ey \/ (ex = ey /\ (mx < my)%positive)).
    { destruct (Z.compare_spec ey ex) as [E | E | E]; try discriminate Hlt.
      - right. split; [ congruence | ].
        change (Pos.compare_cont Eq my mx) with (my ?= mx)%positive in Hlt.
        destruct (Pos.compare_spec my mx); try discriminate Hlt. assumption.
      - now left. }
    pose proof (aligned_mantissas_lt mx ex my ey Vx Vy Hord) as H. lia.
  - lia.
  - assert (Hord : ey < ex \/ (ey = ex /\ (my < mx)%positive)).
    { destruct (Z.compare_spec ey ex) as [E | E | E]; try discriminate Hlt.
      - right. split; [ assumption | ].
        change (Pos.compare_cont Eq my mx) with (my ?= mx)%positive in Hlt.
        destruct (Pos.compare_spec my mx); try discriminate Hlt. assumption.
      - now left. }
    pose proof (aligned_mantissas_lt my ey mx ex Vy Vx Hord) as H.
    rewrite (Z.min_comm ex ey) in H. lia.
Qed.

Lemma sub_gt_neg (x y : float) : (y <? x)%float = true -> (y - x <? 0)%float = true.
Proof.
  intros H. rewrite ltb_zero_r_spec, FloatAxioms.sub_spec.
  apply SFsub_gt_neg; [ apply Prim2SF_valid .. | ].
  now rewrite <- FloatAxioms.ltb_spec.
Qed.

End Signs.

(** X10. When the end time is after the start time and the token count is a
    count of items (not negative, at most [sys.maxsize]), the record
    [calculate_metrics] returns has a positive latency and a throughput
    that is not negative. *)
Theorem calculate_metrics_signs (start_time end_time first_token_time : float)
    (token_times : list float) (token_count : Z) (metrics : Provider.MetricsRecord) :
  (start_time <? end_time)%float = true ->
  0 <= token_count <= maxsize ->
  Provider.calculate_metrics start_time end_time first_token_time
    token_times token_count = Ok metrics ->
  (0 <? Provider.latency metrics)%float = true /\
  (0 <=? Provider.tokens_per_second metrics)%float = true.
Proof.
  intros Hlt Hcount.
  unfold Provider.calculate_metrics, int_truediv_float, float_truediv.
  destruct (mean token_times) as [itl | e]; [ | discriminate ]. cbn [bind].
  unfold maxsize in Hcount. rewrite float_of_int_small by lia. cbn [bind].
  rewrite (sub_lt_nonzero _ _ Hlt). cbn [bind]. intros [= <-]. cbn.
  pose proof (sub_lt_pos _ _ Hlt) as Hpos.
  split; [ exact Hpos | ].
  rewrite leb_zero_spec, FloatAxioms.div_spec.
  destruct (of_uint63_finite_nonneg (of_Z token_count)) as [Hf Hn].
  apply SFdiv_nonneg; [ assumption | assumption | ].
  now rewrite <- ltb_zero_spec.
Qed.

Section UsageSign.

Variable encode : Provider.Tokenizer -> string -> result (list Z).

(** X11. No amount of a usage record is negative: the two token counts never
    are, and with per-token costs that are finite and not negative neither
    is the cost (which is then no NaN either). *)
Theorem calculate_usage_amounts (self : Provider.t) (input output model : string)
    (table : Dict.t ModelConfig) (mc : ModelConfig) (usage : Provider.UsageRecord) :
  Provider.models (Provider.config self) = Some table ->
  Dict.get model table = Some mc ->
  is_finite (input_token_cost mc) = true -> (0 <=? input_token_cost mc)%float = true ->
  is_finite (output_token_cost mc) = true -> (0 <=? output_token_cost mc)%float = true ->
  (forall enc, encode (Provider.tokenizer self) input = Ok enc -> sequence enc) ->
  (forall enc, encode (Provider.tokenizer self) output = Ok enc -> sequence enc) ->
  Provider.calculate_usage encode self input output model = Ok usage ->
  0 <= Provider.input_tokens usage /\
  0 <= Provider.output_tokens usage /\
  (0 <=? Provider.cost usage)%float = true.
Proof.
  intros Htable Hmc Hfi Hni Hfo Hno Hin Hout.
  unfold Provider.calculate_usage, Provider.lookup_model, Dict.subscript.
  rewrite Htable, Hmc. cbn [bind].
  destruct (encode (Provider.tokenizer self) input) as [ein | ]; [ | discriminate ].
  destruct (encode (Provider.tokenizer self) output) as [eout | ]; [ | discriminate ].
  cbn [bind]. specialize (Hin ein eq_refl). specialize (Hout eout eq_refl).
  unfold sequence, maxsize in Hin, Hout. unfold float_mul_int.
  rewrite !float_of_int_small by (split; [ apply len_nonneg | lia ]).
  cbn [bind]. intros [= <-].
  cbn [Provider.cost Provider.input_tokens Provider.output_tokens].
  split; [ apply len_nonneg | split; [ apply len_nonneg | ] ].
  rewrite leb_zero_spec in *.
  rewrite FloatAxioms.add_spec, !FloatAxioms.mul_spec.
  apply SFadd_nonneg; apply SFmul_nonneg;
    try (now apply is_finite_spec); try assumption;
    apply of_uint63_finite_nonneg.
Qed.

End UsageSign.

(** X13. The order of the two times is not checked: with the end time
    before the start time, any record [calculate_metrics] returns has a
    negative latency. *)
Theorem calculate_metrics_reversed_times (start_time end_time first_token_time : float)
    (token_times : list float) (token_count : Z) (metrics : Provider.MetricsRecord) :
  (end_time <? start_time)%float = true ->
  Provider.calculate_metrics start_time end_time first_token_time
    token_times token_count = Ok metrics ->
  (Provider.latency metrics <? 0)%float = true.
Proof.
  intros Hlt.
  unfold Provider.calculate_metrics, int_truediv_float, float_truediv.
  destruct (mean token_times) as [itl | e]; [ | discriminate ]. cbn [bind].
  destruct (float_of_int token_count) as [count | e]; [ | discriminate ]. cbn [bind].
  destruct (end_time - start_time =? 0)%float; [ discriminate | ].
  intros [= <-]. cbn [Provider.latency]. now apply sub_gt_neg.
Qed.

(** ** Reading the terminator back *)

Section ReadBack.

Local Open Scope string_scope.

Lemma parse_decimal_int (z : Z) : parse_int (decimal_int z) = Some z.
Proof.
  unfold parse_int, decimal_int.
  rewrite NilZero.isi.
  - cbn [option_map]. now rewrite DecimalZ.of_to.
  - destruct z; cbn [Z.to_int]; try discriminate.
    intros [= H]. now apply (DecimalPos.Unsigned.to_uint_nonnil p).
  - destruct z; cbn [Z.to_int]; try discriminate.
    intros [= H]. now apply (DecimalPos.Unsigned.to_uint_nonnil p).
Qed.

Lemma decimal_int_no_comma (z : Z) : occurs "," (decimal_int z) = false.
Proof. apply is_int_literal_no_comma, decimal_int_literal. Qed.

Lemma fixed_point_no_comma (k : nat) (n : Z) : occurs "," (fixed_point k n) = false.
Proof.
  unfold fixed_point. rewrite occurs_app, decimal_int_no_comma.
  destruct k as [ | k']; [ reflexivity | ].
  change ("." ++ ?x) with (String "." x). cbn [occurs orb].
  apply all_digits_occurs; [ reflexivity | apply frac_digits_all_digits ].
Qed.

Lemma format_f_no_comma (k : nat) (x : float) : occurs "," (format_f k x) = false.
Proof.
  unfold format_f.
  destruct (Prim2SF x) as [s | s | | s m e]; try reflexivity;
    rewrite occurs_app; try rewrite fixed_point_no_comma; now destruct s.
Qed.

Lemma field_text_intro (key v : string) :
  occurs "=" key = false -> field_text key (key ++ String "=" v) = Some v.
Proof.
  intros Hk. unfold field_text. now rewrite split_at_app, String.eqb_refl.
Qed.

(** X12. For every usage record whose two token counts have at most
    [int_max_str_digits] decimal digits and every metrics record, finite
    or not, [get_end_token_string] returns a text that splits at its commas
    into exactly eight fields, and the two token counts read back from it
    are the ones of the record. When one of the two counts has more
    digits, it raises [ValueError] instead. *)
Theorem end_token_frame_read_back (usage : Provider.UsageRecord)
    (metrics : Provider.MetricsRecord) :
  (Z.abs (Provider.input_tokens usage) < 10 ^ int_max_str_digits ->
   Z.abs (Provider.output_tokens usage) < 10 ^ int_max_str_digits ->
   exists frame,
     Provider.get_end_token_string usage metrics = Ok frame /\
     List.length (split_commas frame) = 8%nat /\
     read_token_counts frame =
     Some (Provider.input_tokens usage, Provider.output_tokens usage)) /\
  (10 ^ int_max_str_digits <= Z.abs (Provider.input_tokens usage) \/
   10 ^ int_max_str_digits <= Z.abs (Provider.output_tokens usage) ->
   Provider.get_end_token_string usage metrics = Raise ValueError).
Proof.
  split; [ | apply get_end_token_string_beyond ].
  intros Hin Hout.
  rewrite (get_end_token_string_fields usage metrics Hin Hout).
  eexists. split; [ reflexivity | ].
  unfold read_token_counts.
  rewrite split_join_commas.
  - rewrite !field_text_intro by reflexivity.
    rewrite !parse_decimal_int. split; reflexivity.
  - discriminate.
  - cbn [forallb].
    rewrite !field_no_comma; try reflexivity;
      first [ apply decimal_int_no_comma
            | apply format_f_no_comma
            | apply is_float_literal_no_comma, str_float_literal ].
Qed.

End ReadBack.

(** ** The properties above, run on the sample configuration *)


Lemma get_models_filter_is_lookup_witness :
  Engine.get_models acme_engine (Some "idle") =
  (e <- Dict.subscript (models_listing (Engine.providers acme_engine)) "idle" ;;
   Ok (Engine.ProviderModels e)).
Proof.
  apply (get_models_filter_is_lookup acme_engine "idle" acme_engine_wf). discriminate.
Defined.

Lemma get_models_key_error_witness :
  Engine.get_models acme_engine (Some "idle") = Raise (KeyError "idle").
Proof.
  destruct (get_models_key_error acme_engine "idle" acme_engine_wf ltac:(discriminate))
    as [_ H].
  apply H. reflexivity.
Defined.

Lemma get_models_unfiltered_entries_witness :
  Dict.get "idle"
    [("acme", {| Engine.entry_name := "Acme"; Engine.entry_models := ["acme-small"] |})] =
  None.
Proof.
  destruct (get_models_unfiltered_entries acme_engine
              [("acme", {| Engine.entry_name := "Acme";
                           Engine.entry_models := ["acme-small"] |})]
              acme_engine_wf eq_refl) as (_ & _ & H).
  eapply H; reflexivity.
Defined.

Lemma export_lines_witness :
  split_on "010" (App.export Z decimal_int sample_executions) =
  ["input_tokens;output_tokens"; "3;7"; "5;0"; ""].
Proof.
  refine (proj2 (export_lines Z decimal_int
            [("input_tokens", 3); ("output_tokens", 7)]
            [[("input_tokens", 5); ("output_tokens", 0)]] _ _)).
  - repeat constructor.
  - intros execution v [<- | [<- | []]] [<- | [<- | []]]; reflexivity.
Defined.

Lemma chat_guards_calculate_usage_witness :
  returns (Provider.calculate_usage char_tokens (Provider.init acme_config)
             "Hello" "Hi there" "acme-small") = true.
Proof.
  refine (proj1 (chat_guards_calculate_usage char_tokens (Provider.init acme_config)
                   (acme_request "acme-small") quiet_world "Hello" "Hi there"
                   eq_refl _ _) eq_refl eq_refl);
    encoding_small.
Defined.

Lemma calculate_usage_failures_witness :
  Provider.calculate_usage char_tokens (Provider.init bare_config)
    "Hello" "Hi there" "acme-small" = Raise TypeError /\
  Provider.calculate_usage char_tokens (Provider.init acme_config)
    "Hello" "Hi there" "acme-large" = Raise (KeyError "acme-large") /\
  Provider.calculate_usage char_tokens (Provider.init acme_config)
    "Hello" "<|endoftext|>" "acme-small" = Raise ValueError.
Proof.
  split; [ | split ].
  - refine (proj1 (calculate_usage_failures char_tokens (Provider.init bare_config)
             "Hello" "Hi there" "acme-small" _ _) eq_refl);
      encoding_small.
  - refine (proj1 (proj2 (calculate_usage_failures char_tokens (Provider.init acme_config)
             "Hello" "Hi there" "acme-large" _ _)) _ eq_refl eq_refl);
      encoding_small.
  - refine (proj1 (proj2 (proj2 (proj2
             (calculate_usage_failures char_tokens (Provider.init acme_config)
                "Hello" "<|endoftext|>" "acme-small" _ _))))
             _ ValueError eq_refl eq_refl eq_refl eq_refl);
      encoding_small.
Defined.

Lemma calculate_metrics_returns_witness :
  returns (Provider.calculate_metrics 10 12 10.5 [0.5; 0.25; 0.75]%float 4) = true.
Proof.
  destruct (calculate_metrics_returns 10 12 10.5 [0.5; 0.25; 0.75]%float 4
              ltac:(sequence_small)) as [H _].
  apply H. repeat split; (discriminate || reflexivity).
Defined.

Lemma chat_outcomes_witness :
  fst (Provider.chat (Provider.init bare_config) (acme_request "acme-small") quiet_world) =
  Raise TypeError /\ taxonomy TypeError = None.
Proof.
  destruct (chat_outcomes (Provider.init bare_config) (acme_request "acme-small")
              quiet_world) as (_ & _ & H & _).
  apply H. reflexivity.
Defined.

Lemma calculate_metrics_signs_witness :
  (0 <? 2)%float = true /\ (0 <=? 2)%float = true.
Proof.
  apply (calculate_metrics_signs 10 12 10.5 [0.5; 0.25; 0.75]%float 4
           {| Provider.latency := 2;
              Provider.time_to_first_token := 0.5;
              Provider.inter_token_latency := 0.5;
              Provider.tokens_per_second := 2 |});
    first [ reflexivity | unfold maxsize; lia | vm_compute; reflexivity ].
Defined.

Lemma calculate_usage_amounts_witness :
  0 <= 5 /\ 0 <= 8 /\
  (0 <=? of_uint63 5 * 0.0000152587890625 + of_uint63 8 * 0.000030517578125)%float = true.
Proof.
  apply (calculate_usage_amounts char_tokens (Provider.init acme_config)
           "Hello" "Hi there" "acme-small" [("acme-small", acme_small)] acme_small
           {| Provider.input_tokens := 5;
              Provider.output_tokens := 8;
              Provider.total_tokens := 13;
              Provider.cost :=
                (of_uint63 5 * 0.0000152587890625 + of_uint63 8 * 0.000030517578125)%float |});
    first [ reflexivity | encoding_small | vm_compute; reflexivity ].
Defined.

Lemma end_token_frame_read_back_witness :
  exists frame,
    Provider.get_end_token_string sample_usage (sample_metrics infinity) = Ok frame /\
    List.length (split_commas frame) = 8%nat /\
    read_token_counts frame = Some (3, 7).
Proof.
  apply (proj1 (end_token_frame_read_back sample_usage (sample_metrics infinity)));
    digits_small.
Defined.

Lemma calculate_metrics_reversed_times_witness :
  (-2 <? 0)%float = true.
Proof.
  apply (calculate_metrics_reversed_times 12 10 10.5 [0.5; 0.25; 0.75]%float 4
           {| Provider.latency := -2;
              Provider.time_to_first_token := -1.5;
              Provider.inter_token_latency := 0.5;
              Provider.tokens_per_second := -2 |});
    vm_compute; reflexivity.
Defined.
